(** * A Tkinter notepad: the document controller and its dialogs

    The program verified here is [notepad.py]: one window around a Tk
    text widget, with file commands (new, open, save, save as, exit),
    go-to-line, and two auxiliary dialogs (find, replace).

    The Python methods are embedded as functions on an explicit state.
    What the program only consumes is made explicit as well:
    - the Tk text widget (characters, insertion mark, modified flag and
      the [<<Modified>>] virtual events it queues), in [Module Tk];
    - Python's text-mode files (UTF-8 codec, newline translation) over a
      small file system, in [Module Utf8] and [Module TextIO];
    - the answers of the modal dialogs, which are arguments of the
      handlers that ask for them.
    Scrolling, tags and the undo stack are display or toolkit state
    that no handler below reads; they are left out.  The fonts, which
    only the font dialog touches, have a state of their own in
    [Module FontDialog]. *)

From Stdlib Require Import ZArith List Lia String Ascii Bool Arith DecimalString.
From Stdlib Require DecimalNat DecimalFacts.
From stdpp Require Import gmap strings.
Import ListNotations.

Local Open Scope nat_scope.

(** ** Characters and text *)

(** A Python [str] is a sequence of code points. *)
Definition char := Z.
Definition str := list char.

Definition LF : char := 10%Z.
Definition CR : char := 13%Z.

Definition is_lf (c : char) : bool := (c =? LF)%Z.
Definition is_cr (c : char) : bool := (c =? CR)%Z.

Definition char_of_ascii (a : ascii) : char := Z.of_N (N_of_ascii a).

Fixpoint text_of_string (s : string) : str :=
  match s with
  | EmptyString => []
  | String a s' => char_of_ascii a :: text_of_string s'
  end.

(** [s.rstrip('\n')]: every trailing line feed goes, nothing else. *)
Fixpoint rstrip_lf (s : str) : str :=
  match s with
  | [] => []
  | c :: r =>
      match rstrip_lf r with
      | [] => if is_lf c then [] else [c]
      | r' => c :: r'
      end
  end.

(** Does the text end in a line feed? *)
Fixpoint ends_with_lf (s : str) : bool :=
  match s with
  | [] => false
  | c :: r =>
      match r with
      | [] => is_lf c
      | _ :: _ => ends_with_lf r
      end
  end.

(** Decimal rendering of a number inside an f-string. *)
Definition dec (n : nat) : string := NilEmpty.string_of_uint (Nat.to_uint n).

(** Case folding of one character, as the widget's [nocase] search
    applies it to pattern and line alike.  Tcl folds with its Unicode
    tables; the letters A-Z are folded here, and the general results on
    searching below hold for any folding function. *)
Definition tolower (c : char) : char :=
  if ((65 <=? c) && (c <=? 90))%Z then (c + 32)%Z else c.

(** ** Substring search *)

Section Search.

Variable fold : char -> char.

Definition char_eqb (nocase : bool) (a b : char) : bool :=
  if nocase then (fold a =? fold b)%Z else (a =? b)%Z.

(** Does [needle] occur at the head of [hay]? *)
Fixpoint match_here (nocase : bool) (needle hay : str) : bool :=
  match needle, hay with
  | [], _ => true
  | _ :: _, [] => false
  | a :: needle', b :: hay' =>
      char_eqb nocase a b && match_here nocase needle' hay'
  end.

(** First position of [needle] in [hay], counted from [pos]. *)
Fixpoint scan (nocase : bool) (needle hay : str) (pos : nat) : option nat :=
  if match_here nocase needle hay then Some pos
  else match hay with
       | [] => None
       | _ :: hay' => scan nocase needle hay' (S pos)
       end.

(** Forward search from offset [start] to the end, no wraparound. *)
Definition find_from (nocase : bool) (needle : str) (start : nat)
           (chars : str) : option nat :=
  scan nocase needle (skipn start chars) start.

(** [needle] occurs in [chars] at offset [p]. *)
Definition occurs_at (nocase : bool) (needle : str) (p : nat)
           (chars : str) : Prop :=
  p <= length chars /\ match_here nocase needle (skipn p chars) = true.

End Search.

(** ** The UTF-8 codec of [open(..., encoding='utf-8')] *)

Module Utf8.

Local Open Scope Z_scope.

Definition byte := Z.

(** Code points that UTF-8 can carry: all but the surrogates. *)
Definition is_scalar (c : char) : bool :=
  ((0 <=? c) && (c <? 0xD800)) || ((0xE000 <=? c) && (c <=? 0x10FFFF)).

Definition encode_char (c : char) : option (list byte) :=
  if negb (is_scalar c) then None
  else if c <? 0x80 then Some [c]
  else if c <? 0x800 then Some [0xC0 + c / 64; 0x80 + c mod 64]
  else if c <? 0x10000 then
    Some [0xE0 + c / 4096; 0x80 + (c / 64) mod 64; 0x80 + c mod 64]
  else
    Some [0xF0 + c / 262144; 0x80 + (c / 4096) mod 64;
          0x80 + (c / 64) mod 64; 0x80 + c mod 64].

(** [None] stands for [UnicodeEncodeError]. *)
Fixpoint encode (s : str) : option (list byte) :=
  match s with
  | [] => Some []
  | c :: r =>
      match encode_char c, encode r with
      | Some b, Some bs => Some (b ++ bs)
      | _, _ => None
      end
  end.

Definition is_cont (b : byte) : bool := (0x80 <=? b) && (b <=? 0xBF).

Definition cont (b : byte) : Z := b - 0x80.

(** The strict decoder: shortest form only, no surrogates, nothing
    above U+10FFFF.  [None] stands for [UnicodeDecodeError]. *)
Fixpoint decode (bs : list byte) : option str :=
  match bs with
  | [] => Some []
  | b0 :: r0 =>
      if (0 <=? b0) && (b0 <? 0x80) then option_map (cons b0) (decode r0)
      else if (0xC2 <=? b0) && (b0 <=? 0xDF) then
        match r0 with
        | b1 :: r1 =>
            if is_cont b1
            then option_map (cons ((b0 - 0xC0) * 64 + cont b1)) (decode r1)
            else None
        | _ => None
        end
      else if (0xE0 <=? b0) && (b0 <=? 0xEF) then
        match r0 with
        | b1 :: b2 :: r2 =>
            let c := (b0 - 0xE0) * 4096 + cont b1 * 64 + cont b2 in
            if is_cont b1 && is_cont b2 && (0x800 <=? c) && is_scalar c
            then option_map (cons c) (decode r2)
            else None
        | _ => None
        end
      else if (0xF0 <=? b0) && (b0 <=? 0xF4) then
        match r0 with
        | b1 :: b2 :: b3 :: r3 =>
            let c := (b0 - 0xF0) * 262144 + cont b1 * 4096
                     + cont b2 * 64 + cont b3 in
            if is_cont b1 && is_cont b2 && is_cont b3
               && (0x10000 <=? c) && (c <=? 0x10FFFF)
            then option_map (cons c) (decode r3)
            else None
        | _ => None
        end
      else None
  end.

End Utf8.

(** ** Text-mode files *)

Module TextIO.

(** The exceptions that [open], [read] and [write] raise here. *)
Inductive io_error :=
| FileNotFoundError
| PermissionError
| UnicodeDecodeError
| UnicodeEncodeError.

Inductive result (A : Type) :=
| Ok (a : A)
| Raise (e : io_error).
Arguments Ok {A} a.
Arguments Raise {A} e.

(** Files by path, the paths that refuse to be opened for reading or
    for writing, and the platform's line separator. *)
Record filesystem := {
  files : gmap string (list Utf8.byte);
  unreadable : gset string;
  unwritable : gset string;
  crlf : bool
}.

Definition put (p : string) (bs : list Utf8.byte) (fs : filesystem)
  : filesystem :=
  {| files := <[p := bs]> (files fs);
     unreadable := unreadable fs;
     unwritable := unwritable fs;
     crlf := crlf fs |}.

(** Writing with [newline=None]: each line feed becomes [os.linesep]. *)
Fixpoint translate_out (crlf : bool) (s : str) : str :=
  match s with
  | [] => []
  | c :: r =>
      if is_lf c && crlf then CR :: LF :: translate_out crlf r
      else c :: translate_out crlf r
  end.

(** Reading with [newline=None]: universal newlines. *)
Fixpoint translate_in (s : str) : str :=
  match s with
  | [] => []
  | c :: r =>
      if is_cr c then
        match r with
        | c' :: r' =>
            if is_lf c' then LF :: translate_in r' else LF :: translate_in r
        | [] => [LF]
        end
      else c :: translate_in r
  end.

(** [with open(p, 'r', encoding='utf-8') as f: data = f.read()] *)
Definition read_text (fs : filesystem) (p : string) : result str :=
  match files fs !! p with
  | None => Raise FileNotFoundError
  | Some bs =>
      if decide (p ∈ unreadable fs) then Raise PermissionError
      else match Utf8.decode bs with
           | None => Raise UnicodeDecodeError
           | Some s => Ok (translate_in s)
           end
  end.

(** [with open(p, 'w', encoding='utf-8') as f: f.write(data)].
    Opening truncates; a text that cannot be encoded raises inside
    [write], after the truncation. *)
Definition write_text (fs : filesystem) (p : string) (data : str)
  : filesystem * option io_error :=
  if decide (p ∈ unwritable fs) then (fs, Some PermissionError)
  else match Utf8.encode (translate_out (crlf fs) data) with
       | None => (put p [] fs, Some UnicodeEncodeError)
       | Some bs => (put p bs fs, None)
       end.

(** The ways a read fails: no such file, no permission, or bytes
    that are not UTF-8. *)
Definition read_fails (fs : filesystem) (p : string) : Prop :=
  files fs !! p = None
  \/ p ∈ unreadable fs
  \/ exists bs, files fs !! p = Some bs /\ Utf8.decode bs = None.

End TextIO.

(** ** The Tk text widget *)

Module Tk.

(** The widget keeps its characters followed by one closing line feed
    of its own, which cannot be deleted.  [chars] are the characters
    before it; offsets count from the first character, the closing
    line feed sits at offset [length chars] and the index [end] is one
    past it.  [pending] counts the [<<Modified>>] virtual events that
    wait in the event queue: the widget queues one whenever the
    modified flag changes. *)
Record Text := {
  chars : str;
  insert : nat;
  modified : bool;
  pending : nat
}.

Definition content (w : Text) : str := chars w ++ [LF].

(** Index expressions, as the program writes them: ['3.0'],
    ['insert'], ['end'], ['end-1c'], [f"{idx}+{n}c"]. *)
Inductive Index :=
| LineChar (line char : Z)
| Insert
| End
| Chars (base : Index) (count : Z).

(** Offset of line [1 + lines], column [col], in [s]: a column past
    the end of the line stops on its line feed, a line past the last
    one stops at the end. *)
Fixpoint offset_from (lines col : nat) (s : str) {struct s} : nat :=
  match s with
  | [] => 0
  | c :: r =>
      match lines with
      | S l => S (offset_from (if is_lf c then l else lines) col r)
      | 0 =>
          match col with
          | S k => if is_lf c then 0 else S (offset_from 0 k r)
          | 0 => 0
          end
      end
  end.

(** Line and column of the offset [off] in [s], counting on from
    [line] and [col]. *)
Fixpoint index_from (line col : nat) (s : str) (off : nat) : nat * nat :=
  match off, s with
  | S o, c :: r =>
      if is_lf c then index_from (S line) 0 r o
      else index_from line (S col) r o
  | _, _ => (line, col)
  end.

Definition clamp (lo hi x : Z) : Z := Z.max lo (Z.min hi x).

(** The offset an index expression denotes, between [0] and [end]. *)
Fixpoint resolve (w : Text) (i : Index) : nat :=
  match i with
  | LineChar line char =>
      if (line <? 1)%Z then 0
      else offset_from (Z.to_nat (line - 1)) (Z.to_nat char) (content w)
  | Insert => insert w
  | End => length (content w)
  | Chars base count =>
      Z.to_nat (clamp 0 (Z.of_nat (length (content w)))
                      (Z.of_nat (resolve w base) + count))
  end.

(** [w.index(i)]: the ['line.char'] form of an index. *)
Definition index (w : Text) (i : Index) : nat * nat :=
  index_from 1 0 (content w) (resolve w i).

Definition as_index (lc : nat * nat) : Index :=
  LineChar (Z.of_nat (fst lc)) (Z.of_nat (snd lc)).

(** A change of the text sets the modified flag; the event is queued
    when the flag changes. *)
Definition touch (w : Text) : Text :=
  if modified w then w
  else {| chars := chars w; insert := insert w;
          modified := true; pending := S (pending w) |}.

Definition set_chars (s : str) (ins : nat) (w : Text) : Text :=
  touch {| chars := s; insert := ins;
           modified := modified w; pending := pending w |}.

(** [w.edit_modified()] *)
Definition edit_modified (w : Text) : bool := modified w.

(** [w.edit_modified(b)] *)
Definition edit_modified_set (b : bool) (w : Text) : Text :=
  {| chars := chars w; insert := insert w; modified := b;
     pending := if eqb (modified w) b then pending w else S (pending w) |}.

(** [w.get(i, j)] *)
Definition get (i j : Index) (w : Text) : str :=
  firstn (resolve w j - resolve w i) (skipn (resolve w i) (content w)).

(** [w.mark_set('insert', i)]: the mark stays before the closing line
    feed. *)
Definition mark_set_insert (i : Index) (w : Text) : Text :=
  {| chars := chars w; insert := Nat.min (resolve w i) (length (chars w));
     modified := modified w; pending := pending w |}.

(** The range a deletion really removes.  The closing line feed stays:
    a range that reaches [end] is cut before it, and when the range
    starts at the beginning of a later line the line feed in front of
    it goes instead. *)
Definition delete_range (a b : nat) (s : str) : nat * nat :=
  if length s <? b then
    (match a with
     | S a' => if is_lf (nth a' s 0%Z) then a' else a
     | 0 => a
     end, length s)
  else (a, b).

(** The insertion mark follows the text around it. *)
Definition mark_after_delete (a b m : nat) : nat :=
  if m <=? a then m else if m <? b then a else m - (b - a).

Definition mark_after_insert (a n m : nat) : nat :=
  if a <=? m then m + n else m.

(** [w.delete(i, j)] *)
Definition delete (i j : Index) (w : Text) : Text :=
  let '(a, b) := delete_range (resolve w i) (resolve w j) (chars w) in
  if a <? b then
    set_chars (firstn a (chars w) ++ skipn b (chars w))
              (mark_after_delete a b (insert w)) w
  else w.

(** [w.insert(i, s)]: at [end] the text goes before the closing line
    feed. *)
Definition insert_text (i : Index) (s : str) (w : Text) : Text :=
  match s with
  | [] => w
  | _ =>
      let a := Nat.min (resolve w i) (length (chars w)) in
      set_chars (firstn a (chars w) ++ s ++ skipn a (chars w))
                (mark_after_insert a (length s) (insert w)) w
  end.

(** [w.search(needle, start, stopindex='end')], with [nocase=1] or
    not: the first occurrence at or after [start] among the
    characters of the buffer, or nothing ([''] in Python).  Giving a
    stop index turns the wraparound off. *)
Definition search (needle : str) (start : Index) (nocase : bool)
           (w : Text) : option Index :=
  match find_from tolower nocase needle (resolve w start) (chars w) with
  | Some p => Some (as_index (index_from 1 0 (content w) p))
  | None => None
  end.

(** The number of lines of the buffer. *)
Definition line_count (w : Text) : nat := S (length (List.filter is_lf (chars w))).

(** The insertion mark lies within the characters of the buffer. *)
Definition wf (w : Text) : Prop := insert w <= length (chars w).

End Tk.

(** ** Modal dialogs

    What the program puts on screen through [messagebox], [filedialog]
    and [simpledialog], in order.  The answers are arguments of the
    handlers. *)

Inductive dialog :=
| AskYesNoCancel (title message : string)
| AskOpenFilename
| AskSaveAsFilename
| AskInteger (title prompt : string)
| ShowError (title message : string) (e : TextIO.io_error)
| ShowInfo (title message : string).

(** ** class Notepad *)

Module Notepad.

Import TextIO.

(** The fields of the [Notepad] object that the handlers read or
    write, the file system they reach, and the dialogs shown so far.
    [destroyed] records [root.destroy()]. *)
Record State := {
  text : Tk.Text;
  filename : option string;
  title : string;
  status : string;
  wrap_var : bool;
  destroyed : bool;
  fs : filesystem;
  shown : list dialog
}.

Definition with_text (f : Tk.Text -> Tk.Text) (st : State) : State :=
  {| text := f (text st); filename := filename st; title := title st;
     status := status st; wrap_var := wrap_var st;
     destroyed := destroyed st; fs := fs st; shown := shown st |}.

Definition set_filename (f : option string) (st : State) : State :=
  {| text := text st; filename := f; title := title st;
     status := status st; wrap_var := wrap_var st;
     destroyed := destroyed st; fs := fs st; shown := shown st |}.

Definition set_title (s : string) (st : State) : State :=
  {| text := text st; filename := filename st; title := s;
     status := status st; wrap_var := wrap_var st;
     destroyed := destroyed st; fs := fs st; shown := shown st |}.

Definition set_status (s : string) (st : State) : State :=
  {| text := text st; filename := filename st; title := title st;
     status := s; wrap_var := wrap_var st;
     destroyed := destroyed st; fs := fs st; shown := shown st |}.

Definition set_wrap_var (b : bool) (st : State) : State :=
  {| text := text st; filename := filename st; title := title st;
     status := status st; wrap_var := b;
     destroyed := destroyed st; fs := fs st; shown := shown st |}.

Definition destroy (st : State) : State :=
  {| text := text st; filename := filename st; title := title st;
     status := status st; wrap_var := wrap_var st;
     destroyed := true; fs := fs st; shown := shown st |}.

Definition set_fs (f : filesystem) (st : State) : State :=
  {| text := text st; filename := filename st; title := title st;
     status := status st; wrap_var := wrap_var st;
     destroyed := destroyed st; fs := f; shown := shown st |}.

Definition show (d : dialog) (st : State) : State :=
  {| text := text st; filename := filename st; title := title st;
     status := status st; wrap_var := wrap_var st;
     destroyed := destroyed st; fs := fs st; shown := shown st ++ [d] |}.

(** [os.path.basename] on a POSIX path: what follows the last slash. *)
Fixpoint basename_from (cur p : string) : string :=
  match p with
  | EmptyString => cur
  | String a r =>
      if Ascii.eqb a "/" then basename_from EmptyString r
      else basename_from (cur ++ String a EmptyString) r
  end.

Definition basename (p : string) : string := basename_from EmptyString p.

(** [self.filename] where Python tests its truth: [None] and the
    empty string count as no path. *)
Definition current_path (st : State) : option string :=
  match filename st with
  | Some EmptyString => None
  | f => f
  end.

Definition display_name (st : State) : string :=
  match current_path st with
  | Some p => basename p
  | None => "Untitled"
  end.

Definition _update_title (st : State) : State :=
  let changed := if Tk.edit_modified (text st) then "*" else "" in
  set_title (display_name st ++ changed ++ " - Notepad") st.

Definition _update_status (st : State) : State :=
  let '(row, col) := Tk.index (text st) Tk.Insert in
  let mode := if wrap_var st then "WRAP" else "NOWRAP" in
  set_status (display_name st ++ "    Ln " ++ dec row ++ ", Col "
              ++ dec (col + 1) ++ "    " ++ mode) st.

(** The handler bound to [<<Modified>>]. *)
Definition _on_modified (st : State) : State :=
  _update_status (with_text (Tk.edit_modified_set false) st).

(** The state after [__init__]. *)
Definition init (f : filesystem) : State :=
  _update_status (_update_title
    {| text := {| Tk.chars := []; Tk.insert := 0;
                  Tk.modified := false; Tk.pending := 0 |};
       filename := None; title := "Untitled - Notepad"; status := "";
       wrap_var := false; destroyed := false; fs := f; shown := [] |}).

(** [file] is the answer of the save-as file dialog; the empty
    string is a cancelled dialog. *)
Definition save_as (file : string) (st : State) : bool * State :=
  let st := show AskSaveAsFilename st in
  match file with
  | EmptyString => (false, st)
  | _ =>
      let data := Tk.get (Tk.LineChar 1 0) Tk.End (text st) in
      match write_text (fs st) file (rstrip_lf data) with
      | (fs', None) =>
          (true,
           _update_title
             (with_text (Tk.edit_modified_set false)
                (set_filename (Some file) (set_fs fs' st))))
      | (fs', Some e) =>
          (false,
           show (ShowError "Save File" "Failed to save file: " e)
                (set_fs fs' st))
      end
  end.

Definition save_file (file : string) (st : State) : bool * State :=
  match current_path st with
  | Some path =>
      let data := Tk.get (Tk.LineChar 1 0) Tk.End (text st) in
      match write_text (fs st) path (rstrip_lf data) with
      | (fs', None) =>
          (true,
           _update_title
             (with_text (Tk.edit_modified_set false) (set_fs fs' st)))
      | (fs', Some e) =>
          (false,
           show (ShowError "Save File" "Failed to save file: " e)
                (set_fs fs' st))
      end
  | None => save_as file st
  end.

Definition unsaved_prompt : dialog :=
  AskYesNoCancel "Save" "You have unsaved changes. Save before continuing?".

(** [choice] is the answer to the unsaved-changes prompt: [Some true]
    for Yes, [Some false] for No, [None] for Cancel. *)
Definition _maybe_save (choice : option bool) (file : string) (st : State)
  : bool * State :=
  if Tk.edit_modified (text st) then
    let st := show unsaved_prompt st in
    match choice with
    | Some true => save_file file st
    | None => (false, st)
    | Some false => (true, st)
    end
  else (true, st).

Definition new_file (choice : option bool) (file : string) (st : State)
  : State :=
  match _maybe_save choice file st with
  | (true, st) =>
      _update_title
        (set_filename None
           (with_text (Tk.delete (Tk.LineChar 1 0) Tk.End) st))
  | (false, st) => st
  end.

(** [file] answers the save-as dialog of the prompt, [opened] the
    open-file dialog. *)
Definition open_file (choice : option bool) (file opened : string)
           (st : State) : State :=
  match _maybe_save choice file st with
  | (false, st) => st
  | (true, st) =>
      let st := show AskOpenFilename st in
      match opened with
      | EmptyString => st
      | _ =>
          match read_text (fs st) opened with
          | Ok data =>
              with_text (Tk.edit_modified_set false)
                (_update_title
                   (set_filename (Some opened)
                      (with_text
                         (fun w =>
                            Tk.insert_text (Tk.LineChar 1 0) data
                              (Tk.delete (Tk.LineChar 1 0) Tk.End w))
                         st)))
          | Raise e =>
              show (ShowError "Open File" "Failed to open file: " e) st
          end
      end
  end.

Definition exit_app (choice : option bool) (file : string) (st : State)
  : State :=
  match _maybe_save choice file st with
  | (true, st) => destroy st
  | (false, st) => st
  end.

(** [answer] is what [askinteger] returns: [None] when cancelled. *)
Definition goto_line (answer : option Z) (st : State) : State :=
  let st := show (AskInteger "Go To Line" "Enter line number:") st in
  match answer with
  | None => st
  | Some line =>
      let max_line :=
        Z.of_nat (fst (Tk.index (text st) (Tk.Chars Tk.End (-1)))) in
      let line := if (line <? 1)%Z then 1%Z else line in
      let line := if (line >? max_line)%Z then max_line else line in
      _update_status
        (with_text (Tk.mark_set_insert (Tk.LineChar line 0)) st)
  end.

Definition toggle_wrap (st : State) : State :=
  set_wrap_var (negb (wrap_var st)) st.

(** A key press that types [s]: the widget's own binding inserts it
    at the insertion mark, then the window's [<Key>] binding updates
    the status bar. *)
Definition key_press (s : str) (st : State) : State :=
  _update_status (with_text (Tk.insert_text Tk.Insert s) st).

(** Taking one [<<Modified>>] event off the queue and running its
    handler. *)
Definition take_event (w : Tk.Text) : Tk.Text :=
  {| Tk.chars := Tk.chars w; Tk.insert := Tk.insert w;
     Tk.modified := Tk.modified w; Tk.pending := pred (Tk.pending w) |}.

(** The event loop between two commands: the queued events are
    dispatched until none is left. *)
Fixpoint mainloop (fuel : nat) (st : State) : option State :=
  match Tk.pending (text st) with
  | 0 => Some st
  | S _ =>
      match fuel with
      | 0 => None
      | S fuel' => mainloop fuel' (_on_modified (with_text take_event st))
      end
  end.

End Notepad.

(** ** class FindDialog *)

Module FindDialog.

Import Notepad.

(** The entry field and the check button of the dialog. *)
Record Dialog := {
  find_entry : str;
  match_case : bool
}.

Definition find_next (d : Dialog) (st : State) : State :=
  let needle := find_entry d in
  match needle with
  | [] => st
  | _ =>
      let start := Tk.as_index (Tk.index (text st) Tk.Insert) in
      match Tk.search needle start (negb (match_case d)) (text st) with
      | None => show (ShowInfo "Find" "No more matches found") st
      | Some idx =>
          let end_ := Tk.Chars idx (Z.of_nat (length needle)) in
          with_text (Tk.mark_set_insert end_) st
      end
  end.

End FindDialog.

(** ** class ReplaceDialog *)

Module ReplaceDialog.

Import Notepad.

Record Dialog := {
  find_entry : str;
  replace_entry : str;
  match_case : bool
}.

(** One replacement in the widget: the match at [idx] goes, [repl]
    comes in its place. *)
Definition substitute (idx : Tk.Index) (needle repl : str) (w : Tk.Text)
  : Tk.Text :=
  let end_ := Tk.Chars idx (Z.of_nat (length needle)) in
  Tk.insert_text idx repl (Tk.delete idx end_ w).

Definition replace_one (d : Dialog) (st : State) : State :=
  let needle := find_entry d in
  let repl := replace_entry d in
  match needle with
  | [] => st
  | _ =>
      let start := Tk.as_index (Tk.index (text st) Tk.Insert) in
      match Tk.search needle start (negb (match_case d)) (text st) with
      | None => show (ShowInfo "Replace" "No matches found") st
      | Some idx =>
          with_text
            (fun w =>
               Tk.mark_set_insert (Tk.Chars idx (Z.of_nat (length repl)))
                 (substitute idx needle repl w))
            st
      end
  end.

(** The [while True] loop of [replace_all], one iteration per unit
    of fuel; [None] when the fuel runs out before the loop breaks. *)
Fixpoint replace_loop (fuel : nat) (needle repl : str) (nocase : bool)
         (idx : Tk.Index) (count : nat) (w : Tk.Text)
  : option (nat * Tk.Text) :=
  match fuel with
  | 0 => None
  | S fuel' =>
      match Tk.search needle idx nocase w with
      | None => Some (count, w)
      | Some idx =>
          replace_loop fuel' needle repl nocase
            (Tk.Chars idx (Z.of_nat (length repl))) (S count)
            (substitute idx needle repl w)
      end
  end.

Definition replaced_message (count : nat) : dialog :=
  ShowInfo "Replace All" ("Replaced " ++ dec count ++ " occurrence(s)").

Definition replace_all (fuel : nat) (d : Dialog) (st : State)
  : option State :=
  let needle := find_entry d in
  let repl := replace_entry d in
  match needle with
  | [] => Some st
  | _ =>
      match replace_loop fuel needle repl (negb (match_case d))
              (Tk.LineChar 1 0) 0 (text st) with
      | None => None
      | Some (count, w) =>
          Some (show (replaced_message count) (with_text (fun _ => w) st))
      end
  end.

End ReplaceDialog.

(** ** The specification's wording of [replace_all]

    One left-to-right pass over the original text: the text up to the
    next occurrence is kept, the occurrence is replaced, and the scan
    goes on after it.  What has been put in is never looked at again. *)

Section SinglePass.

Variable fold : char -> char.

Fixpoint single_pass (nocase : bool) (c : char) (needle' repl : str)
         (skip : nat) (s : str) : nat * str :=
  match s with
  | [] => (0, [])
  | x :: r =>
      let '(n, out) :=
        single_pass nocase c needle' repl
          (match skip with
           | S k => k
           | 0 => if match_here fold nocase (c :: needle') s
                  then length needle' else 0
           end) r in
      match skip with
      | S _ => (n, out)
      | 0 => if match_here fold nocase (c :: needle') s
             then (S n, repl ++ out) else (n, x :: out)
      end
  end.

End SinglePass.

(** ** Sample worlds

    Concrete inputs on which the results below are instantiated. *)

Module Sample.

Import TextIO Notepad.

(** An empty POSIX file system. *)
Definition posix : filesystem :=
  {| files := ∅; unreadable := ∅; unwritable := ∅; crlf := false |}.

(** A file system with a file that is not UTF-8 and a file that may
    not be read. *)
Definition disk : filesystem :=
  {| files := <["notes.txt" := [104; 105]%Z]>
                (<["blob.bin" := [255]%Z]>
                   (<["secret.txt" := [120]%Z]> ∅));
     unreadable := {["secret.txt"]};
     unwritable := {["locked.txt"]};
     crlf := false |}.

(** A fresh window in which [s] has just been typed. *)
Definition typed (f : filesystem) (s : string) : State :=
  key_press (text_of_string s) (init f).

End Sample.

(** ** Sessions

    The commands of the menus, accelerators and dialog buttons, with
    the answers their dialogs get, and the states a session can be in:
    from the state after [__init__], by running a handler or by
    dispatching one queued [<<Modified>>] event. *)

Module Session.

Import Notepad.

Inductive command :=
| New (choice : option bool) (file : string)
| Open (choice : option bool) (file opened : string)
| Save (file : string)
| SaveAs (file : string)
| Exit (choice : option bool) (file : string)
| GotoLine (answer : option Z)
| ToggleWrap
| Key (s : str)
| FindNext (d : FindDialog.Dialog)
| ReplaceOne (d : ReplaceDialog.Dialog)
| ReplaceAll (d : ReplaceDialog.Dialog).

(** The handler of a command; [None] when [replace_all] is out of
    fuel. *)
Definition handle (fuel : nat) (c : command) (st : State) : option State :=
  match c with
  | New choice file => Some (new_file choice file st)
  | Open choice file opened => Some (open_file choice file opened st)
  | Save file => Some (snd (save_file file st))
  | SaveAs file => Some (snd (save_as file st))
  | Exit choice file => Some (exit_app choice file st)
  | GotoLine answer => Some (goto_line answer st)
  | ToggleWrap => Some (toggle_wrap st)
  | Key s => Some (key_press s st)
  | FindNext d => Some (FindDialog.find_next d st)
  | ReplaceOne d => Some (ReplaceDialog.replace_one d st)
  | ReplaceAll d => ReplaceDialog.replace_all fuel d st
  end.

Inductive reachable (f : TextIO.filesystem) : State -> Prop :=
| reach_init : reachable f (init f)
| reach_handle (fuel : nat) (c : command) (st st' : State) :
    reachable f st -> handle fuel c st = Some st' -> reachable f st'
| reach_event (st : State) :
    reachable f st -> 1 <= Tk.pending (text st) ->
    reachable f (_on_modified (with_text take_event st)).

End Session.

(** ** class FontDialog *)

Module FontDialog.

(** The font attributes of the [Notepad] object: the two fields and
    the family and size the [text_font] object is configured with. *)
Record Fonts := {
  current_font_family : string;
  current_font_size : nat;
  text_font : string * nat
}.

(** The fonts after [Notepad.__init__]. *)
Definition default : Fonts :=
  {| current_font_family := "Consolas"; current_font_size := 12;
     text_font := ("Consolas", 12) |}.

Definition sizes : list nat := [8; 9; 10; 11; 12; 14; 16; 18; 20; 24; 28; 32].

(** [l.index(x)]: the first position of [x], [None] for [ValueError]. *)
Fixpoint index_of {A : Type} (eqb : A -> A -> bool) (x : A) (l : list A)
  : option nat :=
  match l with
  | [] => None
  | y :: r => if eqb x y then Some 0 else option_map S (index_of eqb x r)
  end.

(** [families.sort()]: ascending, strings compared by code points. *)
Fixpoint insert_sorted (x : string) (l : list string) : list string :=
  match l with
  | [] => [x]
  | y :: r => if String.leb x y then x :: l else y :: insert_sorted x r
  end.

Fixpoint sort (l : list string) : list string :=
  match l with
  | [] => []
  | x :: r => insert_sorted x (sort r)
  end.

(** The two list boxes with their selection: [curselection()] is the
    empty tuple ([None]) or holds one index. *)
Record Dialog := {
  family_box : list string;
  family_sel : option nat;
  size_box : list string;
  size_sel : option nat
}.

(** Selecting an item of one box.  A Tk list box exports its selection
    unless told otherwise, and a box loses its selection when another
    widget takes the exported selection over; [export] says whether the
    boxes do so (the program leaves the option at Tk's default). *)
Definition select_family (export : bool) (i : nat) (d : Dialog) : Dialog :=
  {| family_box := family_box d; family_sel := Some i;
     size_box := size_box d;
     size_sel := if export then None else size_sel d |}.

Definition select_size (export : bool) (i : nat) (d : Dialog) : Dialog :=
  {| family_box := family_box d;
     family_sel := if export then None else family_sel d;
     size_box := size_box d; size_sel := Some i |}.

(** [__init__]: [families] is what [font.families()] returns; the
    current family and the current size are selected when listed. *)
Definition create (export : bool) (families : list string) (n : Fonts)
  : Dialog :=
  let families := sort families in
  let d := {| family_box := families; family_sel := None;
              size_box := map dec sizes; size_sel := None |} in
  let d :=
    match index_of String.eqb (current_font_family n) families with
    | Some i => select_family export i d
    | None => d
    end in
  match index_of Nat.eqb (current_font_size n) sizes with
  | Some i => select_size export i d
  | None => d
  end.

(** A click on an item of a list box selects it. *)
Definition click_family (export : bool) (i : nat) (d : Dialog) : Dialog :=
  if i <? length (family_box d) then select_family export i d else d.

Definition click_size (export : bool) (i : nat) (d : Dialog) : Dialog :=
  if i <? length (size_box d) then select_size export i d else d.

(** [int(s)] on the text of a list box item; [None] for [ValueError]. *)
Definition int (s : string) : option nat :=
  option_map Nat.of_uint (NilZero.uint_of_string s).

(** [box.get(i)]: the empty string when there is no such item. *)
Definition get (i : nat) (box : list string) : string := nth i box "".

Definition set_family (f : string) (n : Fonts) : Fonts :=
  {| current_font_family := f; current_font_size := current_font_size n;
     text_font := text_font n |}.

Definition set_size (k : nat) (n : Fonts) : Fonts :=
  {| current_font_family := current_font_family n; current_font_size := k;
     text_font := text_font n |}.

Definition config (n : Fonts) : Fonts :=
  {| current_font_family := current_font_family n;
     current_font_size := current_font_size n;
     text_font := (current_font_family n, current_font_size n) |}.

(** [apply]: whatever raises inside the [try] is swallowed, and what
    was assigned before stays assigned. *)
Definition apply (d : Dialog) (n : Fonts) : Fonts :=
  let n :=
    match family_sel d with
    | Some i => set_family (get i (family_box d)) n
    | None => n
    end in
  match size_sel d with
  | Some i =>
      match int (get i (size_box d)) with
      | Some size => config (set_size size n)
      | None => n
      end
  | None => config n
  end.

(** The dialogs that [__init__] and clicks produce: the boxes hold the
    sorted families and the fixed sizes, and a selection is an index
    into its box. *)
Definition valid (families : list string) (d : Dialog) : Prop :=
  family_box d = sort families
  /\ size_box d = map dec sizes
  /\ (forall i, family_sel d = Some i -> i < length (family_box d))
  /\ (forall i, size_sel d = Some i -> i < length (size_box d)).

End FontDialog.

(** * Properties *)

(** ** Searching *)

Section SearchFacts.

Variable fold : char -> char.
Variable nocase : bool.
Variable needle : str.

Local Abbreviation here := (match_here fold nocase needle).

Lemma match_here_length (hay : str) :
  here hay = true -> length needle <= length hay.
Proof.
  revert hay. induction needle as [|a n IH]; intros hay H; simpl.
  - lia.
  - destruct hay as [|b h]; simpl in H; [discriminate|].
    apply andb_true_iff in H as [_ H]. apply IH in H. simpl. lia.
Qed.

(** The scan returns the first position at which the needle sits. *)
Lemma scan_Some (hay : str) (pos p : nat) :
  scan fold nocase needle hay pos = Some p ->
  exists k, p = pos + k /\ k <= length hay /\
            here (skipn k hay) = true /\
            forall j, j < k -> here (skipn j hay) = false.
Proof.
  revert pos. induction hay as [|b h IH]; intros pos H; simpl in H.
  - destruct (here []) eqn:E; [|discriminate].
    injection H as <-. exists 0. repeat split; auto; simpl; lia.
  - destruct (here (b :: h)) eqn:E.
    + injection H as <-. exists 0. repeat split; auto; simpl; lia.
    + apply IH in H as (k & -> & Hk & Hm & Hfirst).
      exists (S k). repeat split; simpl; auto; try lia.
      intros [|j] Hj; simpl; [exact E | apply Hfirst; lia].
Qed.

Lemma scan_None (hay : str) (pos : nat) :
  scan fold nocase needle hay pos = None ->
  forall j, j <= length hay -> here (skipn j hay) = false.
Proof.
  revert pos. induction hay as [|b h IH]; intros pos H j Hj; simpl in H.
  - destruct (here []) eqn:E; [discriminate|].
    destruct j; simpl; auto.
  - destruct (here (b :: h)) eqn:E; [discriminate|].
    destruct j as [|j]; simpl; [exact E|].
    apply (IH _ H). simpl in Hj. lia.
Qed.

Lemma scan_shift (hay : str) (pos : nat) :
  scan fold nocase needle hay pos
  = option_map (Nat.add pos) (scan fold nocase needle hay 0).
Proof.
  revert pos. induction hay as [|b h IH]; intros pos; simpl.
  - destruct (here []); simpl; f_equal; lia.
  - destruct (here (b :: h)); simpl; [f_equal; lia|].
    rewrite (IH (S pos)), (IH 1).
    destruct (scan fold nocase needle h 0); simpl; f_equal; lia.
Qed.

(** Searching behind a prefix is searching the rest. *)
Lemma find_from_app (pre rest : str) :
  find_from fold nocase needle (length pre) (pre ++ rest)
  = option_map (Nat.add (length pre)) (scan fold nocase needle rest 0).
Proof.
  unfold find_from. rewrite skipn_app, skipn_all, Nat.sub_diag. simpl.
  apply scan_shift.
Qed.

(** No wraparound: nothing found means no occurrence at or after the
    start, whatever lies before it. *)
Lemma find_from_None (start : nat) (chars : str) :
  start <= length chars ->
  (find_from fold nocase needle start chars = None <->
   forall p, start <= p -> ~ occurs_at fold nocase needle p chars).
Proof.
  intros Hs. unfold find_from, occurs_at. split.
  - intros H p Hp [Hlen Hm].
    pose proof (scan_None _ _ H (p - start)) as Hn.
    rewrite skipn_skipn in Hn.
    replace (p - start + start) with p in Hn by lia.
    rewrite Hn in Hm; [discriminate|]. rewrite length_skipn. lia.
  - intros H.
    destruct (scan fold nocase needle (skipn start chars) start) as [p|] eqn:E;
      [|reflexivity].
    apply scan_Some in E as (k & -> & Hk & Hm & _).
    rewrite length_skipn in Hk. rewrite skipn_skipn in Hm.
    exfalso. apply (H (start + k)); [lia|]. split; [lia|].
    replace (start + k) with (k + start) by lia. exact Hm.
Qed.

(** Forward only: what is found is the first occurrence at or after
    the start. *)
Lemma find_from_Some (start p : nat) (chars : str) :
  start <= length chars ->
  find_from fold nocase needle start chars = Some p ->
  start <= p /\ occurs_at fold nocase needle p chars /\
  forall q, start <= q -> q < p -> ~ occurs_at fold nocase needle q chars.
Proof.
  intros Hs H. unfold find_from in H.
  apply scan_Some in H as (k & -> & Hk & Hm & Hfirst).
  rewrite length_skipn in Hk. rewrite skipn_skipn in Hm.
  split; [lia|]. split.
  - split; [lia|]. replace (start + k) with (k + start) by lia. exact Hm.
  - intros q Hq1 Hq2 [_ Hq].
    specialize (Hfirst (q - start)). rewrite skipn_skipn in Hfirst.
    replace (q - start + start) with q in Hfirst by lia.
    rewrite Hfirst in Hq; [discriminate | lia].
Qed.

End SearchFacts.

(** ** Indices of the text widget *)

Section IndexFacts.

Import Tk.

Lemma index_from_mono (s : str) : forall l c o l' c',
  index_from l c s o = (l', c') -> l <= l' /\ (l' = l -> c <= c').
Proof.
  induction s as [|x r IH]; intros l c o l' c' H.
  - destruct o; injection H as <- <-; lia.
  - destruct o as [|o]; simpl in H; [injection H as <- <-; lia|].
    destruct (is_lf x); apply IH in H; lia.
Qed.

(** The line and column of a position depend on what precedes it. *)
Lemma index_from_app (A B : str) : forall l c,
  index_from l c (A ++ B) (length A) = index_from l c A (length A).
Proof.
  induction A as [|x r IH]; intros l c; simpl.
  - destruct B; reflexivity.
  - destruct (is_lf x); apply IH.
Qed.

Lemma index_from_lines (s : str) : forall l c,
  fst (index_from l c s (length s)) = l + length (List.filter is_lf s).
Proof.
  induction s as [|x r IH]; intros l c; simpl.
  - lia.
  - destruct (is_lf x); rewrite IH; simpl; lia.
Qed.

(** From offset to line and column and back. *)
Lemma offset_from_index_from (A B : str) : forall l0 c0 line col,
  index_from l0 c0 A (length A) = (line, col) ->
  offset_from (line - l0) (if line =? l0 then col - c0 else col) (A ++ B)
  = length A.
Proof.
  induction A as [|x r IH]; intros l0 c0 line col H; simpl in H.
  - injection H as <- <-. rewrite Nat.sub_diag, Nat.eqb_refl, Nat.sub_diag.
    destruct B; reflexivity.
  - simpl. destruct (is_lf x) eqn:Ex.
    + pose proof (index_from_mono _ _ _ _ _ _ H) as [Hl _].
      destruct (line - l0) as [|k] eqn:Ek; [lia|].
      f_equal. specialize (IH _ _ _ _ H).
      replace (line - S l0) with k in IH by lia.
      destruct (line =? l0) eqn:E1; [apply Nat.eqb_eq in E1; lia|].
      destruct (line =? S l0) eqn:E2; [|exact IH].
      rewrite Nat.sub_0_r in IH. exact IH.
    + pose proof (index_from_mono _ _ _ _ _ _ H) as [Hl Hc].
      specialize (IH _ _ _ _ H).
      destruct (line =? l0) eqn:E1.
      * apply Nat.eqb_eq in E1. subst line. specialize (Hc eq_refl).
        rewrite Nat.sub_diag in *.
        destruct (col - c0) as [|k] eqn:Ek; [lia|].
        f_equal. replace (col - S c0) with k in IH by lia.
        exact IH.
      * apply Nat.eqb_neq in E1.
        destruct (line - l0) as [|k] eqn:Ek; [lia|].
        f_equal. exact IH.
Qed.

Lemma offset_from_0_0 (s : str) : offset_from 0 0 s = 0.
Proof. destruct s; reflexivity. Qed.

(** From line to offset and back to line and column. *)
Lemma index_from_offset_from (s : str) : forall l c L,
  1 <= L -> L <= length (List.filter is_lf s) ->
  index_from l c s (offset_from L 0 s) = (l + L, 0).
Proof.
  induction s as [|x r IH]; intros l c L H1 H2; simpl in H2; [lia|].
  destruct L as [|k]; [lia|]. simpl.
  destruct (is_lf x) eqn:Ex; simpl in H2.
  - destruct k as [|k].
    + rewrite offset_from_0_0. destruct r; simpl; f_equal; lia.
    + rewrite IH by lia. f_equal. lia.
  - rewrite IH by lia. reflexivity.
Qed.

Lemma offset_from_le (s : str) : forall L col,
  offset_from L col s <= length s.
Proof.
  induction s as [|x r IH]; intros L col; simpl; [lia|].
  destruct L as [|k].
  - destruct col; [lia|]. destruct (is_lf x); [lia|].
    specialize (IH 0 col). lia.
  - specialize (IH (if is_lf x then k else S k) col). lia.
Qed.

(** An index string handed out by the widget denotes the same offset
    later on, as long as the text before it has not changed. *)
Lemma resolve_as_index (w w' : Text) (p : nat) :
  p <= length (content w) ->
  firstn p (content w') = firstn p (content w) ->
  resolve w' (as_index (index_from 1 0 (content w) p)) = p.
Proof.
  intros Hp Hpre.
  assert (Hlen : length (firstn p (content w)) = p)
    by (rewrite length_firstn; lia).
  assert (Hix : index_from 1 0 (content w) p
                = index_from 1 0 (firstn p (content w))
                    (length (firstn p (content w)))).
  { rewrite <- (index_from_app _ (skipn p (content w))).
    rewrite firstn_skipn, Hlen. reflexivity. }
  rewrite Hix.
  destruct (index_from 1 0 (firstn p (content w))
              (length (firstn p (content w)))) as [line col] eqn:E.
  pose proof (index_from_mono _ _ _ _ _ _ E) as [Hl _].
  pose proof (offset_from_index_from _ (skipn p (content w')) _ _ _ _ E) as H.
  rewrite <- Hpre in H at 1. rewrite firstn_skipn in H.
  unfold as_index, resolve. simpl fst. simpl snd.
  destruct (Z.of_nat line <? 1)%Z eqn:E1; [apply Z.ltb_lt in E1; lia|].
  replace (Z.to_nat (Z.of_nat line - 1)) with (line - 1) by lia.
  rewrite Nat2Z.id.
  destruct (line =? 1); [rewrite Nat.sub_0_r in H|]; rewrite H; exact Hlen.
Qed.

Lemma resolve_index_insert (w : Text) :
  wf w -> resolve w (as_index (index w Insert)) = insert w.
Proof.
  intros Hw. unfold index. simpl resolve.
  apply resolve_as_index; [|reflexivity].
  unfold wf in Hw. unfold content. rewrite length_app. simpl. lia.
Qed.

Lemma resolve_chars (w : Text) (i : Index) (n : nat) :
  resolve w (Chars i (Z.of_nat n))
  = Nat.min (resolve w i + n) (length (content w)).
Proof. simpl. unfold clamp. lia. Qed.

End IndexFacts.

(** ** Go to line *)

Section GotoLine.

Import Tk Notepad.

Lemma index_from_0 (s : str) (l c : nat) : index_from l c s 0 = (l, c).
Proof. destruct s; reflexivity. Qed.

Lemma line_start_in_buffer (s : str) : forall L,
  L <= length (List.filter is_lf s) ->
  offset_from L 0 (s ++ [LF]) <= length s.
Proof.
  induction s as [|x r IH]; intros L H; simpl in H.
  - replace L with 0 by lia. simpl. lia.
  - destruct L as [|k]; simpl; [lia|].
    destruct (is_lf x); simpl in H; apply le_n_S, IH; lia.
Qed.

(** The last line, as the program computes it from ['end-1c']. *)
Lemma max_line_count (w : Text) :
  fst (index w (Chars End (-1))) = line_count w.
Proof.
  unfold index, line_count.
  assert (E : resolve w (Chars End (-1)) = length (chars w)).
  { simpl. unfold clamp, content. rewrite length_app. simpl. lia. }
  rewrite E. unfold content. rewrite index_from_app.
  rewrite index_from_lines. reflexivity.
Qed.

Lemma goto_line_text (n : Z) (st : State) :
  text (goto_line (Some n) st)
  = mark_set_insert
      (LineChar (clamp 1 (Z.of_nat (line_count (text st))) n) 0) (text st).
Proof.
  unfold goto_line. simpl text at 1. rewrite max_line_count.
  unfold _update_status.
  match goal with |- context [index ?w Insert] =>
    destruct (index w Insert) as [row col] end.
  simpl. f_equal. f_equal. unfold clamp, line_count.
  destruct (n <? 1)%Z eqn:E1.
  - apply Z.ltb_lt in E1.
    destruct (1 >? Z.of_nat (S (length (List.filter is_lf (chars (text st))))))%Z
      eqn:E2; [apply Z.gtb_lt in E2; lia | lia].
  - apply Z.ltb_ge in E1.
    destruct (n >? Z.of_nat (S (length (List.filter is_lf (chars (text st))))))%Z
      eqn:E2; [apply Z.gtb_lt in E2; lia|].
    pose proof (Zgt_cases n
      (Z.of_nat (S (length (List.filter is_lf (chars (text st))))))) as H.
    rewrite E2 in H. lia.
Qed.

Lemma mark_set_line (w : Text) (line : Z) :
  (1 <= line <= Z.of_nat (line_count w))%Z ->
  let w' := mark_set_insert (LineChar line 0) w in
  index w' Insert = (Z.to_nat line, 0) /\ wf w' /\ chars w' = chars w.
Proof.
  intros H w'. unfold line_count in H.
  assert (Hr : resolve w (LineChar line 0)
               = offset_from (Z.to_nat line - 1) 0 (content w)).
  { simpl. destruct (line <? 1)%Z eqn:E; [apply Z.ltb_lt in E; lia|].
    f_equal. lia. }
  assert (Hle : offset_from (Z.to_nat line - 1) 0 (content w)
                <= length (chars w)).
  { apply line_start_in_buffer. lia. }
  split; [|split; [|reflexivity]].
  - unfold index.
    change (resolve w' Insert)
      with (Nat.min (resolve w (LineChar line 0)) (length (chars w))).
    change (content w') with (content w).
    rewrite Hr, Nat.min_l by exact Hle.
    destruct (Z.to_nat line - 1) as [|k] eqn:Ek.
    + rewrite offset_from_0_0, index_from_0. f_equal. lia.
    + rewrite index_from_offset_from.
      * f_equal. lia.
      * lia.
      * unfold content. rewrite List.filter_app, length_app. simpl. lia.
  - unfold wf, w', mark_set_insert. simpl. lia.
Qed.

End GotoLine.

(** C8. For every integer [n], [goto_line(n)] puts the caret on column 0
    of line [n] clamped to the range from 1 to the last line: [0] lands
    on line 1, any number from the last line on lands on the last line,
    and the caret stays inside the buffer, which is not changed. *)
Theorem goto_line_clamps (n : Z) (st : Notepad.State) :
  let last := Tk.line_count (Notepad.text st) in
  let line := Z.to_nat (Tk.clamp 1 (Z.of_nat last) n) in
  let st' := Notepad.goto_line (Some n) st in
  Tk.index (Notepad.text st') Tk.Insert = (line, 0)
  /\ 1 <= line <= last
  /\ Tk.wf (Notepad.text st')
  /\ Tk.chars (Notepad.text st') = Tk.chars (Notepad.text st)
  /\ Tk.index (Notepad.text (Notepad.goto_line (Some 0%Z) st)) Tk.Insert
     = (1, 0)
  /\ forall k : nat,
       Tk.index
         (Notepad.text (Notepad.goto_line (Some (Z.of_nat (last + k))) st))
         Tk.Insert = (last, 0).
Proof.
  intros last line st'.
  assert (Hall : forall m,
    Tk.index (Notepad.text (Notepad.goto_line (Some m) st)) Tk.Insert
    = (Z.to_nat (Tk.clamp 1 (Z.of_nat last) m), 0)
    /\ Tk.wf (Notepad.text (Notepad.goto_line (Some m) st))
    /\ Tk.chars (Notepad.text (Notepad.goto_line (Some m) st))
       = Tk.chars (Notepad.text st)).
  { intros m. rewrite goto_line_text. apply mark_set_line.
    unfold Tk.clamp, last, Tk.line_count. lia. }
  destruct (Hall n) as (H1 & H2 & H3).
  split; [exact H1|]. split.
  { unfold line, Tk.clamp, last, Tk.line_count. lia. }
  split; [exact H2|]. split; [exact H3|]. split.
  - destruct (Hall 0%Z) as (H & _). rewrite H.
    f_equal; unfold Tk.clamp, last, Tk.line_count; lia.
  - intros k. destruct (Hall (Z.of_nat (last + k))) as (H & _). rewrite H.
    f_equal; unfold Tk.clamp, last, Tk.line_count; lia.
Qed.

(** ** The unsaved-changes prompt *)

Section Prompt.

Import Notepad.

Lemma maybe_save_clean (choice : option bool) (file : string) (st : State) :
  Tk.modified (text st) = false -> _maybe_save choice file st = (true, st).
Proof. intros H. unfold _maybe_save, Tk.edit_modified. rewrite H. reflexivity. Qed.

Lemma maybe_save_cancel (file : string) (st : State) :
  Tk.modified (text st) = true ->
  _maybe_save None file st = (false, show unsaved_prompt st).
Proof. intros H. unfold _maybe_save, Tk.edit_modified. rewrite H. reflexivity. Qed.

Lemma maybe_save_discard (file : string) (st : State) :
  Tk.modified (text st) = true ->
  _maybe_save (Some false) file st = (true, show unsaved_prompt st).
Proof. intros H. unfold _maybe_save, Tk.edit_modified. rewrite H. reflexivity. Qed.

Lemma maybe_save_yes (file : string) (st : State) :
  Tk.modified (text st) = true ->
  _maybe_save (Some true) file st = save_file file (show unsaved_prompt st).
Proof. intros H. unfold _maybe_save, Tk.edit_modified. rewrite H. reflexivity. Qed.

Lemma save_as_cancel (st : State) :
  save_as "" st = (false, show AskSaveAsFilename st).
Proof. reflexivity. Qed.

End Prompt.

(** C5. On a dirty document, answering Cancel to the unsaved-changes
    prompt aborts new, open and exit alike: the state after the command
    is the state before it with the prompt shown, so the buffer, the
    caret, the dirty flag, the path and the files are as they were, and
    the window is not destroyed by exit. *)
Theorem cancel_aborts (file opened : string) (st : Notepad.State) :
  Tk.modified (Notepad.text st) = true ->
  let st' := Notepad.show Notepad.unsaved_prompt st in
  Notepad.new_file None file st = st'
  /\ Notepad.open_file None file opened st = st'
  /\ Notepad.exit_app None file st = st'
  /\ Notepad.text st' = Notepad.text st
  /\ Notepad.filename st' = Notepad.filename st
  /\ Notepad.fs st' = Notepad.fs st
  /\ Notepad.destroyed st' = Notepad.destroyed st.
Proof.
  intros H st'.
  unfold Notepad.new_file, Notepad.open_file, Notepad.exit_app.
  rewrite (maybe_save_cancel file st H). repeat split.
Qed.

Lemma cancel_aborts_witness :
  Tk.modified (Notepad.text (Sample.typed Sample.posix "draft")) = true
  /\ Notepad.new_file None "" (Sample.typed Sample.posix "draft")
     = Notepad.show Notepad.unsaved_prompt (Sample.typed Sample.posix "draft").
Proof.
  split; [reflexivity|].
  apply (cancel_aborts "" "" (Sample.typed Sample.posix "draft")).
  reflexivity.
Defined.

(** C10. A cancelled save-as dialog makes [save_as] return [False] with
    nothing written and nothing changed but the dialog shown; hence, on
    a dirty untitled document, answering Yes to the unsaved-changes
    prompt and then cancelling the path dialog aborts new, open and
    exit. *)
Theorem save_as_cancel_aborts (opened : string) (st : Notepad.State) :
  Tk.modified (Notepad.text st) = true ->
  Notepad.current_path st = None ->
  let st' :=
    Notepad.show AskSaveAsFilename (Notepad.show Notepad.unsaved_prompt st) in
  Notepad.save_as "" st = (false, Notepad.show AskSaveAsFilename st)
  /\ Notepad.new_file (Some true) "" st = st'
  /\ Notepad.open_file (Some true) "" opened st = st'
  /\ Notepad.exit_app (Some true) "" st = st'
  /\ Notepad.text st' = Notepad.text st
  /\ Notepad.filename st' = Notepad.filename st
  /\ Notepad.fs st' = Notepad.fs st
  /\ Notepad.destroyed st' = Notepad.destroyed st.
Proof.
  intros H Hp st'.
  assert (E : Notepad._maybe_save (Some true) "" st = (false, st')).
  { rewrite (maybe_save_yes "" st H). unfold Notepad.save_file.
    change (Notepad.current_path (Notepad.show Notepad.unsaved_prompt st))
      with (Notepad.current_path st).
    rewrite Hp. reflexivity. }
  unfold Notepad.new_file, Notepad.open_file, Notepad.exit_app.
  rewrite E. repeat split.
Qed.

Lemma save_as_cancel_aborts_witness :
  Notepad.exit_app (Some true) "" (Sample.typed Sample.posix "draft")
  = Notepad.show AskSaveAsFilename
      (Notepad.show Notepad.unsaved_prompt (Sample.typed Sample.posix "draft")).
Proof.
  apply (save_as_cancel_aborts "" (Sample.typed Sample.posix "draft"));
    reflexivity.
Defined.

(** C9, as the program has it.  With an empty needle [find_next],
    [replace_one] and [replace_all] return at once: the state is the
    one before, so buffer and caret are unchanged, no replacement is
    made, and no dialog is shown; in particular [replace_all] does not
    reach the message that reports a count. *)
Theorem empty_needle_noop (repl : str) (mc : bool) (fuel : nat)
        (st : Notepad.State) :
  FindDialog.find_next
    {| FindDialog.find_entry := []; FindDialog.match_case := mc |} st = st
  /\ ReplaceDialog.replace_one
       {| ReplaceDialog.find_entry := []; ReplaceDialog.replace_entry := repl;
          ReplaceDialog.match_case := mc |} st = st
  /\ ReplaceDialog.replace_all fuel
       {| ReplaceDialog.find_entry := []; ReplaceDialog.replace_entry := repl;
          ReplaceDialog.match_case := mc |} st = Some st.
Proof. repeat split. Qed.

(** C9 as stated fails: with an empty needle [replace_all] reports
    nothing, not a count of zero. *)
Lemma empty_needle_reports_no_count :
  ~ exists st',
      ReplaceDialog.replace_all 1
        {| ReplaceDialog.find_entry := [];
           ReplaceDialog.replace_entry := text_of_string "x";
           ReplaceDialog.match_case := false |}
        (Sample.typed Sample.posix "abc") = Some st'
      /\ In (ReplaceDialog.replaced_message 0) (Notepad.shown st').
Proof.
  intros (st' & H & Hin). simpl in H. injection H as <-.
  vm_compute in Hin. exact Hin.
Qed.

(** ** Find *)

Section Find.

Import Tk Notepad.

(** A search from the index of the insertion mark is a search from
    its offset. *)
Lemma search_from_insert (needle : str) (nocase : bool) (w : Text) :
  wf w ->
  search needle (as_index (index w Insert)) nocase w
  = match find_from tolower nocase needle (insert w) (chars w) with
    | Some p => Some (as_index (index_from 1 0 (content w) p))
    | None => None
    end.
Proof. intros Hw. unfold search. rewrite resolve_index_insert by exact Hw. reflexivity. Qed.

(** The index just behind an occurrence found at offset [p]. *)
Lemma resolve_behind (needle : str) (nocase : bool) (w : Text) (p : nat) :
  occurs_at tolower nocase needle p (chars w) ->
  Nat.min
    (resolve w (Chars (as_index (index_from 1 0 (content w) p))
                      (Z.of_nat (length needle))))
    (length (chars w))
  = p + length needle.
Proof.
  intros [Hp Hm]. apply match_here_length in Hm. rewrite length_skipn in Hm.
  rewrite resolve_chars, resolve_as_index; [| |reflexivity].
  - unfold content. rewrite length_app. simpl. lia.
  - unfold content. rewrite length_app. simpl. lia.
Qed.

End Find.



(** ** Opening a file that cannot be read *)

Section OpenFailure.

Import TextIO Notepad.

Lemma read_fails_raises (f : filesystem) (p : string) :
  read_fails f p <-> exists e, read_text f p = Raise e.
Proof.
  unfold read_fails, read_text. split.
  - intros [H | [H | (bs & H & Hd)]].
    + rewrite H. eauto.
    + destruct (files f !! p); [|eauto].
      destruct (decide (p ∈ unreadable f)); [eauto | contradiction].
    + rewrite H, Hd. destruct (decide (p ∈ unreadable f)); eauto.
  - intros [e H]. destruct (files f !! p) as [bs|] eqn:E; [|auto].
    destruct (decide (p ∈ unreadable f)); [auto|].
    destruct (Utf8.decode bs) eqn:Ed; [discriminate|].
    right. right. exists bs. auto.
Qed.

(** What [open_file] does once the prompt has let it go on and the
    read raises. *)
Lemma open_file_raise (choice : option bool) (file opened : string)
      (st st1 : State) (e : io_error) :
  opened <> EmptyString ->
  _maybe_save choice file st = (true, st1) ->
  read_text (fs st1) opened = Raise e ->
  open_file choice file opened st
  = show (ShowError "Open File" "Failed to open file: " e)
         (show AskOpenFilename st1).
Proof.
  intros Hne Hm Hr. unfold open_file. rewrite Hm.
  destruct opened as [|a r]; [contradiction|].
  change (fs (show AskOpenFilename st1)) with (fs st1).
  rewrite Hr. reflexivity.
Qed.

End OpenFailure.

(** C6. When the read of the chosen path fails -- the file is missing,
    may not be read, or is not UTF-8 -- [open_file] shows an error and
    changes nothing else: buffer, caret, dirty flag, path and files are
    those that the unsaved-changes prompt left, which are those from
    before the command whenever the prompt saved nothing (the document
    was clean, or the answer was No). *)
Theorem open_failure_leaves_document
        (choice : option bool) (file opened : string)
        (st st1 : Notepad.State) :
  opened <> EmptyString ->
  Notepad._maybe_save choice file st = (true, st1) ->
  TextIO.read_fails (Notepad.fs st1) opened ->
  let st' := Notepad.open_file choice file opened st in
  (exists e,
     st' = Notepad.show (ShowError "Open File" "Failed to open file: " e)
             (Notepad.show AskOpenFilename st1))
  /\ Notepad.text st' = Notepad.text st1
  /\ Notepad.filename st' = Notepad.filename st1
  /\ Notepad.fs st' = Notepad.fs st1
  /\ (Tk.modified (Notepad.text st) = false \/ choice = Some false ->
      Notepad.text st' = Notepad.text st
      /\ Notepad.filename st' = Notepad.filename st
      /\ Notepad.fs st' = Notepad.fs st).
Proof.
  intros Hne Hm Hr st'.
  apply read_fails_raises in Hr as [e Hr].
  pose proof (open_file_raise choice file opened st st1 e Hne Hm Hr) as H.
  fold st' in H. split; [eauto|]. rewrite H.
  split; [reflexivity|]. split; [reflexivity|]. split; [reflexivity|].
  intros Hc. simpl.
  destruct (Tk.modified (Notepad.text st)) eqn:Emod.
  - destruct Hc as [Hc | ->]; [discriminate|].
    rewrite (maybe_save_discard file st Emod) in Hm.
    injection Hm as <-. repeat split.
  - rewrite (maybe_save_clean choice file st Emod) in Hm.
    injection Hm as <-. repeat split.
Qed.

Lemma open_failure_leaves_document_witness :
  Notepad.text
    (Notepad.open_file None "" "blob.bin" (Notepad.init Sample.disk))
  = Notepad.text (Notepad.init Sample.disk).
Proof.
  refine (proj1 (proj2 (open_failure_leaves_document None "" "blob.bin"
           (Notepad.init Sample.disk) (Notepad.init Sample.disk) _ _ _))).
  - discriminate.
  - reflexivity.
  - right. right. exists [255%Z]. split; reflexivity.
Defined.

(** ** Replace *)

Section Substitute.

Import Tk.

Lemma chars_set_chars (s : str) (ins : nat) (w : Text) :
  chars (set_chars s ins w) = s.
Proof. unfold set_chars, touch. simpl. destruct (modified w); reflexivity. Qed.

Lemma content_prefix (w : Text) (pre rest : str) :
  chars w = pre ++ rest -> firstn (length pre) (content w) = pre.
Proof.
  intros H. unfold content. rewrite H, <- app_assoc.
  rewrite firstn_app, firstn_all, Nat.sub_diag. simpl. apply app_nil_r.
Qed.

Lemma content_length (w : Text) : length (content w) = S (length (chars w)).
Proof. unfold content. rewrite length_app. simpl. lia. Qed.

(** An index taken at the end of [pre] still denotes that place in
    any widget whose text starts with [pre]. *)
Lemma resolve_after_prefix (w w' : Text) (pre rest rest' : str) :
  chars w = pre ++ rest -> chars w' = pre ++ rest' ->
  resolve w' (as_index (index_from 1 0 (content w) (length pre)))
  = length pre.
Proof.
  intros H H'. apply resolve_as_index.
  - rewrite content_length, H, length_app. lia.
  - rewrite (content_prefix _ _ _ H), (content_prefix _ _ _ H'). reflexivity.
Qed.

(** Replacing the occurrence [mid] between [pre] and [post], and the
    place where the next search starts. *)
Lemma substitute_at (w : Text) (pre mid post needle repl : str) :
  chars w = pre ++ mid ++ post ->
  length mid = length needle ->
  needle <> [] ->
  let idx := as_index (index_from 1 0 (content w) (length pre)) in
  let w' := ReplaceDialog.substitute idx needle repl w in
  chars w' = pre ++ repl ++ post
  /\ resolve w' (Chars idx (Z.of_nat (length repl)))
     = length pre + length repl.
Proof.
  intros H Hmid Hne idx w'.
  assert (Hn : 1 <= length needle) by (destruct needle; simpl; [congruence | lia]).
  assert (Hlen : length (chars w) = length pre + length mid + length post)
    by (rewrite H, !length_app; lia).
  assert (Hr : resolve w idx = length pre)
    by (apply (resolve_after_prefix w w pre _ _ H H)).
  assert (Hr2 : resolve w (Chars idx (Z.of_nat (length needle)))
                = length pre + length mid).
  { rewrite resolve_chars, Hr, content_length. lia. }
  set (w1 := delete idx (Chars idx (Z.of_nat (length needle))) w).
  assert (H1 : chars w1 = pre ++ post).
  { unfold w1, delete. rewrite Hr, Hr2. unfold delete_range.
    destruct (length (chars w) <? length pre + length mid) eqn:E1;
      [apply Nat.ltb_lt in E1; lia|].
    destruct (length pre <? length pre + length mid) eqn:E2;
      [|apply Nat.ltb_ge in E2; lia].
    rewrite chars_set_chars, H.
    rewrite firstn_app, firstn_all, Nat.sub_diag. simpl firstn.
    rewrite app_nil_r. f_equal.
    rewrite skipn_app, skipn_all2 by lia.
    replace (length pre + length mid - length pre) with (length mid) by lia.
    rewrite skipn_app, skipn_all, Nat.sub_diag. reflexivity. }
  assert (Hw' : chars w' = pre ++ repl ++ post).
  { unfold w', ReplaceDialog.substitute. fold idx. fold w1.
    unfold insert_text. destruct repl as [|r0 rs] eqn:Er; [exact H1|].
    rewrite <- Er. rewrite chars_set_chars.
    assert (Hr1 : resolve w1 idx = length pre)
      by apply (resolve_after_prefix w w1 pre _ _ H H1).
    rewrite Hr1.
    rewrite Nat.min_l by (rewrite H1, length_app; lia).
    rewrite H1, firstn_app, firstn_all, Nat.sub_diag. simpl firstn.
    rewrite app_nil_r, skipn_app, skipn_all, Nat.sub_diag. reflexivity. }
  split; [exact Hw'|].
  assert (Hr' : resolve w' idx = length pre)
    by apply (resolve_after_prefix w w' pre _ _ H Hw').
  rewrite resolve_chars, Hr'.
  rewrite content_length, Hw', !length_app. lia.
Qed.

End Substitute.

Section SinglePassFacts.

Variable fold : char -> char.
Variable nocase : bool.
Variable c : char.
Variable needle' repl : str.

Local Abbreviation pass := (single_pass fold nocase c needle' repl).
Local Abbreviation here := (match_here fold nocase (c :: needle')).

Lemma single_pass_cons (skip : nat) (x : char) (r : str) :
  pass skip (x :: r)
  = match skip with
    | S k => pass k r
    | 0 => if here (x :: r)
           then (S (fst (pass (length needle') r)),
                 repl ++ snd (pass (length needle') r))
           else (fst (pass 0 r), x :: snd (pass 0 r))
    end.
Proof.
  cbn [single_pass]. destruct skip as [|k].
  - destruct (here (x :: r)).
    + destruct (pass (length needle') r); reflexivity.
    + destruct (pass 0 r); reflexivity.
  - destruct (pass k r); reflexivity.
Qed.

(** Skipping characters and then scanning is scanning what is left. *)
Lemma single_pass_skip (s : str) : forall skip,
  pass skip s = pass 0 (skipn skip s).
Proof.
  induction s as [|x r IH]; intros [|k]; try reflexivity.
  rewrite single_pass_cons. simpl skipn. apply IH.
Qed.

Lemma single_pass_none (s : str) :
  (forall j, j <= length s -> here (skipn j s) = false) ->
  pass 0 s = (0, s).
Proof.
  induction s as [|x r IH]; intros H; [reflexivity|].
  assert (H0 : here (x :: r) = false) by (apply (H 0); simpl; lia).
  rewrite single_pass_cons, H0.
  rewrite IH; [reflexivity|].
  intros j Hj. apply (H (S j)). simpl. lia.
Qed.

Lemma single_pass_some (k : nat) : forall s : str,
  here (skipn k s) = true ->
  (forall j, j < k -> here (skipn j s) = false) ->
  pass 0 s
  = (S (fst (pass 0 (skipn (k + S (length needle')) s))),
     firstn k s ++ repl ++ snd (pass 0 (skipn (k + S (length needle')) s))).
Proof.
  induction k as [|k IH]; intros s Hm Hfirst.
  - destruct s as [|x r]; [discriminate|].
    rewrite single_pass_cons. simpl in Hm. simpl here. rewrite Hm.
    rewrite single_pass_skip. reflexivity.
  - destruct s as [|x r]; [discriminate|].
    assert (H0 : here (x :: r) = false) by (apply (Hfirst 0); lia).
    rewrite single_pass_cons, H0.
    rewrite (IH r); [reflexivity | exact Hm |].
    intros j Hj. apply (Hfirst (S j)). lia.
Qed.

End SinglePassFacts.

Section ReplaceLoop.

Import Tk.

Variable nocase : bool.
Variable c : char.
Variable needle' repl : str.

Local Abbreviation pass := (single_pass tolower nocase c needle' repl 0).

(** The loop on the widget computes the single pass over what lies
    behind the scan position, and it ends within [length rest + 1]
    iterations. *)
Lemma replace_loop_single_pass (fuel : nat) :
  forall (rest pre : str) (idx : Index) (count : nat) (w : Text),
    chars w = pre ++ rest ->
    resolve w idx = length pre ->
    length rest < fuel ->
    exists w',
      ReplaceDialog.replace_loop fuel (c :: needle') repl nocase idx count w
      = Some (count + fst (pass rest), w')
      /\ chars w' = pre ++ snd (pass rest).
Proof.
  induction fuel as [|fuel IH]; intros rest pre idx count w Hw Hidx Hfuel;
    [lia|].
  cbn [ReplaceDialog.replace_loop]. unfold search.
  rewrite Hidx, Hw, find_from_app.
  destruct (scan tolower nocase (c :: needle') rest 0) as [k|] eqn:E;
    cbn [option_map].
  - apply scan_Some in E as (k' & Hk & Hlen & Hm & Hfirst).
    simpl in Hk. subst k'.
    pose proof (match_here_length _ _ _ _ Hm) as Hn.
    rewrite length_skipn in Hn. cbn [length] in Hn.
    set (mid := firstn (S (length needle')) (skipn k rest)).
    set (post := skipn (k + S (length needle')) rest).
    assert (Hrest : rest = firstn k rest ++ mid ++ post).
    { unfold mid, post.
      replace (k + S (length needle')) with (S (length needle') + k) by lia.
      rewrite <- skipn_skipn, !firstn_skipn. reflexivity. }
    assert (Hpre : length (pre ++ firstn k rest) = length pre + k)
      by (rewrite length_app, length_firstn; lia).
    assert (Hw2 : chars w = (pre ++ firstn k rest) ++ mid ++ post)
      by (rewrite <- app_assoc, <- Hrest; exact Hw).
    assert (Hmid : length mid = length (c :: needle')).
    { unfold mid. rewrite length_firstn, length_skipn. cbn [length]. lia. }
    destruct (substitute_at w _ mid post (c :: needle') repl Hw2 Hmid)
      as (Hc & Hnext); [discriminate|].
    cbv zeta in Hc, Hnext. rewrite Hpre in Hc, Hnext.
    set (w2 := ReplaceDialog.substitute _ _ _ _) in *.
    destruct (IH post ((pre ++ firstn k rest) ++ repl)
                (Chars (as_index
                          (index_from 1 0 (content w) (length pre + k)))
                       (Z.of_nat (length repl)))
                (S count) w2) as (w' & Hloop & Hchars).
    + rewrite Hc, <- !app_assoc. reflexivity.
    + rewrite Hnext, !length_app, length_firstn. lia.
    + unfold post. rewrite length_skipn. lia.
    + exists w'. rewrite Hloop.
      rewrite (single_pass_some tolower nocase c needle' repl k rest Hm Hfirst).
      fold post. cbn [fst snd]. split.
      * f_equal. f_equal. lia.
      * rewrite Hchars, <- !app_assoc. reflexivity.
  - exists w.
    rewrite (single_pass_none tolower nocase c needle' repl rest
               (scan_None _ _ _ _ _ E)).
    cbn [fst snd]. rewrite Nat.add_0_r. split; [reflexivity | exact Hw].
Qed.

End ReplaceLoop.

Section ReplaceAll.

Import Tk Notepad.

(** More fuel does not change the outcome of a loop that ended. *)
Lemma replace_loop_more_fuel (needle repl : str) (nocase : bool)
      (extra fuel : nat) :
  forall idx count w r,
    ReplaceDialog.replace_loop fuel needle repl nocase idx count w = Some r ->
    ReplaceDialog.replace_loop (fuel + extra) needle repl nocase idx count w
    = Some r.
Proof.
  induction fuel as [|fuel IH]; intros idx count w r H; [discriminate|].
  cbn [ReplaceDialog.replace_loop Nat.add] in *.
  destruct (search needle idx nocase w); [apply IH|]; exact H.
Qed.

Lemma resolve_start (w : Text) : resolve w (LineChar 1 0) = 0.
Proof. simpl. apply offset_from_0_0. Qed.

End ReplaceAll.


(** ** Text files: codec and newline translation *)

Section Codec.

Import Utf8.
Local Open Scope Z_scope.

Local Ltac decide_tests :=
  repeat match goal with
         | |- context [?a <=? ?b] => destruct (Z.leb_spec a b); try lia
         | |- context [?a <? ?b] => destruct (Z.ltb_spec a b); try lia
         end.

Local Ltac split_tests H :=
  repeat match type of H with
         | context [?a <=? ?b] => destruct (Z.leb_spec a b)
         | context [?a <? ?b] => destruct (Z.ltb_spec a b)
         end;
  simpl in H; try discriminate H.

(** Decoding undoes the encoding of one character. *)
Lemma decode_encode_char (c : char) (b : list byte) (rest : list byte) :
  encode_char c = Some b ->
  decode (b ++ rest) = option_map (cons c) (decode rest).
Proof.
  unfold encode_char, is_scalar. intros H.
  split_tests H; injection H as <-;
    cbn [app decode]; unfold is_cont, cont, is_scalar;
    Z.to_euclidean_division_equations; decide_tests;
    cbn [andb orb option_map];
    try reflexivity; f_equal; f_equal; lia.
Qed.

Lemma decode_encode (s : str) (bs : list byte) :
  encode s = Some bs -> decode bs = Some s.
Proof.
  revert bs. induction s as [|c r IH]; intros bs H; simpl in H.
  - injection H as <-. reflexivity.
  - destruct (encode_char c) as [b|] eqn:Ec; [|discriminate].
    destruct (encode r) as [bs'|] eqn:Er; [|discriminate].
    injection H as <-.
    rewrite (decode_encode_char c b bs' Ec), (IH bs' eq_refl). reflexivity.
Qed.

End Codec.

Section Newlines.

Import TextIO.

Lemma is_lf_eq (c : char) : is_lf c = true -> c = LF.
Proof. unfold is_lf. apply Z.eqb_eq. Qed.

Lemma is_cr_false (c : char) : c <> CR -> is_cr c = false.
Proof. unfold is_cr. apply Z.eqb_neq. Qed.

(** Without carriage returns, reading undoes the newline translation
    of writing, on either platform. *)
Lemma translate_in_out (crlf : bool) (s : str) :
  ~ In CR s -> translate_in (translate_out crlf s) = s.
Proof.
  induction s as [|c r IH]; intros H; [reflexivity|].
  assert (Hc : c <> CR) by (intros ->; apply H; left; reflexivity).
  assert (Hr : ~ In CR r) by (intros Hin; apply H; right; exact Hin).
  cbn [translate_out]. destruct (is_lf c && crlf) eqn:E.
  - apply andb_true_iff in E as [E _]. apply is_lf_eq in E. subst c.
    cbn. rewrite (IH Hr). reflexivity.
  - cbn [translate_in]. rewrite (is_cr_false c Hc), (IH Hr). reflexivity.
Qed.

Lemma rstrip_lf_app_lf (s : str) : rstrip_lf (s ++ [LF]) = rstrip_lf s.
Proof.
  induction s as [|c r IH]; [reflexivity|].
  cbn [app rstrip_lf]. rewrite IH. reflexivity.
Qed.

(** A text that does not end in a line feed is not changed by
    [rstrip]. *)
Lemma rstrip_lf_keeps (s : str) : ends_with_lf s = false -> rstrip_lf s = s.
Proof.
  induction s as [|c r IH]; intros H; [reflexivity|].
  cbn [rstrip_lf]. destruct r as [|c' r'].
  - simpl in *. rewrite H. reflexivity.
  - rewrite (IH H). reflexivity.
Qed.

End Newlines.

Section SaveOpen.

Import TextIO Tk Notepad.

Lemma get_all (w : Text) : get (LineChar 1 0) End w = content w.
Proof.
  unfold get. rewrite resolve_start. simpl resolve.
  rewrite Nat.sub_0_r. simpl skipn. apply firstn_all.
Qed.

(** What [open_file] leaves in the widget: exactly what was read. *)
Lemma chars_replace_all_text (data : str) (w : Text) :
  chars (insert_text (LineChar 1 0) data (delete (LineChar 1 0) End w))
  = data.
Proof.
  set (w1 := delete (LineChar 1 0) End w).
  assert (H1 : chars w1 = []).
  { unfold w1, delete. rewrite resolve_start. simpl resolve.
    unfold delete_range. rewrite content_length.
    destruct (length (chars w) <? S (length (chars w))) eqn:E;
      [|apply Nat.ltb_ge in E; lia].
    destruct (0 <? length (chars w)) eqn:E0.
    - rewrite chars_set_chars, skipn_all. reflexivity.
    - apply Nat.ltb_ge in E0. destruct (chars w); [reflexivity|simpl in E0; lia]. }
  unfold insert_text. destruct data as [|c r] eqn:Ed; [exact H1|].
  rewrite chars_set_chars, resolve_start, H1. simpl. rewrite app_nil_r.
  reflexivity.
Qed.

(** The two saving commands share their outcome: when one returns
    [True], the stripped text went to the document's path, the flag
    is clear, and the buffer is as it was. *)
Lemma save_succeeds (file : string) (st st1 : State) :
  save_file file st = (true, st1) \/ save_as file st = (true, st1) ->
  exists path bs,
    current_path st1 = Some path
    /\ Utf8.encode (translate_out (crlf (fs st))
                      (rstrip_lf (chars (text st)))) = Some bs
    /\ fs st1 = put path bs (fs st)
    /\ chars (text st1) = chars (text st)
    /\ insert (text st1) = insert (text st)
    /\ modified (text st1) = false.
Proof.
  assert (Has : save_as file st = (true, st1) ->
    exists path bs,
      current_path st1 = Some path
      /\ Utf8.encode (translate_out (crlf (fs st))
                        (rstrip_lf (chars (text st)))) = Some bs
      /\ fs st1 = put path bs (fs st)
      /\ chars (text st1) = chars (text st)
      /\ insert (text st1) = insert (text st)
      /\ modified (text st1) = false).
  { unfold save_as. destruct file as [|a r] eqn:Ef; [discriminate|].
    rewrite <- Ef.
    change (text (show AskSaveAsFilename st)) with (text st).
    change (fs (show AskSaveAsFilename st)) with (fs st).
    rewrite get_all. unfold content. rewrite rstrip_lf_app_lf.
    unfold write_text.
    destruct (decide (file ∈ unwritable (fs st))); [discriminate|].
    destruct (Utf8.encode _) as [bs|] eqn:Ee; [|discriminate].
    intros H. injection H as <-. exists file, bs.
    split; [|repeat split].
    unfold current_path. simpl. rewrite Ef. reflexivity. }
  intros [H | H]; [|exact (Has H)].
  unfold save_file in H. destruct (current_path st) as [path|] eqn:Ep;
    [|exact (Has H)].
  rewrite get_all in H. unfold content in H. rewrite rstrip_lf_app_lf in H.
  unfold write_text in H.
  destruct (decide (path ∈ unwritable (fs st))); [discriminate|].
  destruct (Utf8.encode _) as [bs|] eqn:Ee; [|discriminate].
  injection H as <-. exists path, bs.
  split; [exact Ep | repeat split].
Qed.

Lemma current_path_nonempty (st : State) (p : string) :
  current_path st = Some p -> p <> EmptyString.
Proof.
  unfold current_path. destruct (filename st) as [[|a r]|];
    intros H; try discriminate; injection H as <-; discriminate.
Qed.

End SaveOpen.




(** C2.  Where the program departs from it: the buffer "a", line feed,
    line feed is written as the single byte of "a" by save as and by
    save alike; both of its own line feeds are gone together with the
    one the widget appends, where the claim keeps "a" and one line
    feed. *)
Theorem save_strips_every_trailing_newline :
  let C := [97; 10; 10]%Z in
  let st := Notepad.key_press C (Notepad.init Sample.posix) in
  let saved := Notepad.save_as "out.txt" st in
  let saved_again :=
    Notepad.save_file "" (Notepad.key_press [10%Z] (snd saved)) in
  Tk.get (Tk.LineChar 1 0) Tk.End (Notepad.text st) = [97; 10; 10; 10]%Z
  /\ fst saved = true
  /\ TextIO.files (Notepad.fs (snd saved)) !! "out.txt"%string = Some [97%Z]
  /\ fst saved_again = true
  /\ TextIO.files (Notepad.fs (snd saved_again)) !! "out.txt"%string
     = Some [97%Z]
  /\ Utf8.encode [97; 10]%Z = Some [97; 10]%Z.
Proof. vm_compute. repeat split. Qed.

(** ** The modified flag and the event loop *)

Section Modified.

Import Tk Notepad.

Lemma text_update_status (st : State) : text (_update_status st) = text st.
Proof.
  unfold _update_status. destruct (index (text st) Insert). reflexivity.
Qed.

Lemma text_on_modified (st : State) :
  text (_on_modified st) = edit_modified_set false (text st).
Proof. unfold _on_modified. rewrite text_update_status. reflexivity. Qed.

Lemma mainloop_idle (fuel : nat) (st : State) :
  pending (text st) = 0 -> mainloop fuel st = Some st.
Proof. intros H. destruct fuel; simpl; rewrite H; reflexivity. Qed.

(** With the flag clear, the queue drains and the flag stays clear. *)
Lemma mainloop_drain (n : nat) : forall (extra : nat) (st : State),
  pending (text st) = n ->
  modified (text st) = false ->
  exists st',
    mainloop (n + extra) st = Some st'
    /\ pending (text st') = 0
    /\ modified (text st') = false
    /\ chars (text st') = chars (text st).
Proof.
  induction n as [|n IH]; intros extra st Hp Hm.
  - exists st. rewrite (mainloop_idle _ _ Hp). auto.
  - cbn [Nat.add mainloop]. rewrite Hp.
    destruct (IH extra (_on_modified (with_text take_event st)))
      as (st' & H1 & H2 & H3 & H4).
    + rewrite text_on_modified. simpl. rewrite Hp, Hm. reflexivity.
    + rewrite text_on_modified. reflexivity.
    + exists st'. rewrite H4, text_on_modified. auto.
Qed.

(** Once the queued [<<Modified>>] events have been handled the flag
    is clear, whatever was changed: the handler resets it. *)
Lemma mainloop_clears_flag (st : State) :
  1 <= pending (text st) ->
  exists st',
    mainloop (S (pending (text st))) st = Some st'
    /\ pending (text st') = 0
    /\ modified (text st') = false
    /\ chars (text st') = chars (text st).
Proof.
  intros Hp. destruct (pending (text st)) as [|n] eqn:En; [lia|].
  cbn [mainloop]. rewrite En.
  set (st1 := _on_modified (with_text take_event st)).
  assert (Hm1 : modified (text st1) = false)
    by (unfold st1; rewrite text_on_modified; reflexivity).
  assert (Hc1 : chars (text st1) = chars (text st))
    by (unfold st1; rewrite text_on_modified; reflexivity).
  assert (Hp1 : pending (text st1) <= S n).
  { unfold st1. rewrite text_on_modified. simpl. rewrite En.
    destruct (eqb (modified (text st)) false); simpl; lia. }
  destruct (mainloop_drain (pending (text st1))
              (S n - pending (text st1)) st1 eq_refl Hm1)
    as (st' & H1 & H2 & H3 & H4).
  replace (pending (text st1) + (S n - pending (text st1))) with (S n)
    in H1 by lia.
  exists st'. rewrite H4. auto.
Qed.

(** Right after a successful save the flag is clear. *)
Lemma flag_clear_after_save (file : string) (st st1 : State) :
  save_file file st = (true, st1) \/ save_as file st = (true, st1) ->
  modified (text st1) = false.
Proof.
  intros H. destruct (save_succeeds file st st1 H)
    as (_ & _ & _ & _ & _ & _ & _ & Hm). exact Hm.
Qed.

(** Typing sets the flag: until the event is handled. *)
Lemma key_press_sets_flag (s : str) (st : State) :
  s <> [] -> modified (text (key_press s st)) = true.
Proof.
  intros Hs. unfold key_press. rewrite text_update_status.
  destruct s as [|c r]; [contradiction|].
  simpl. unfold set_chars, touch. simpl.
  destruct (modified (text st)); reflexivity.
Qed.

End Modified.

(** C1.  Where the program departs from it: in a fresh window "draft"
    is typed.  The flag is set by the edit, and the event loop then
    runs the [<<Modified>>] handler, which clears it.  At rest the flag
    is clear although the buffer holds text that was never saved, and
    new, open and exit go on without the unsaved-changes prompt: new
    empties the buffer, exit destroys the window. *)
Theorem dirty_flag_lost_after_edit :
  let st := Sample.typed Sample.posix "draft" in
  Tk.modified (Notepad.text st) = true
  /\ exists idle,
       Notepad.mainloop 2 st = Some idle
       /\ Tk.pending (Notepad.text idle) = 0
       /\ Tk.modified (Notepad.text idle) = false
       /\ Tk.chars (Notepad.text idle) = text_of_string "draft"
       /\ Notepad.filename idle = None
       /\ forall (choice : option bool) (file : string),
            Notepad._maybe_save choice file idle = (true, idle)
            /\ Tk.chars (Notepad.text (Notepad.new_file choice file idle)) = []
            /\ Notepad.shown (Notepad.new_file choice file idle) = []
            /\ Notepad.destroyed (Notepad.exit_app choice file idle) = true.
Proof.
  split; [reflexivity|].
  eexists. split; [vm_compute; reflexivity|].
  repeat split.
Qed.

(** ** The caret stays inside the buffer *)

Section CaretInvariant.

Import Tk Notepad.

Lemma wf_set_chars (s : str) (ins : nat) (w : Text) :
  ins <= length s -> wf (set_chars s ins w).
Proof.
  intros H. unfold wf, set_chars, touch. simpl.
  destruct (modified w); simpl; exact H.
Qed.

Lemma wf_edit_modified_set (b : bool) (w : Text) :
  wf w -> wf (edit_modified_set b w).
Proof. intros H. exact H. Qed.

Lemma wf_mark_set_insert (i : Index) (w : Text) : wf (mark_set_insert i w).
Proof. unfold wf, mark_set_insert. simpl. lia. Qed.

Lemma wf_delete (i j : Index) (w : Text) : wf w -> wf (delete i j w).
Proof.
  intros Hw. unfold delete.
  destruct (delete_range (resolve w i) (resolve w j) (chars w)) as [a b] eqn:E.
  destruct (a <? b) eqn:Eab; [|exact Hw].
  apply Nat.ltb_lt in Eab.
  assert (Hb : b <= length (chars w)).
  { unfold delete_range in E.
    destruct (length (chars w) <? resolve w j) eqn:E1.
    - injection E as _ <-. lia.
    - apply Nat.ltb_ge in E1. injection E as _ <-. exact E1. }
  apply wf_set_chars. unfold wf in Hw.
  rewrite length_app, length_firstn, length_skipn. unfold mark_after_delete.
  destruct (insert w <=? a) eqn:E1; [apply Nat.leb_le in E1; lia|].
  destruct (insert w <? b) eqn:E2; lia.
Qed.

Lemma wf_insert_text (i : Index) (s : str) (w : Text) :
  wf w -> wf (insert_text i s w).
Proof.
  intros Hw. unfold insert_text. destruct s as [|c r] eqn:Es; [exact Hw|].
  rewrite <- Es. apply wf_set_chars. unfold wf in Hw.
  rewrite !length_app, length_firstn, length_skipn. unfold mark_after_insert.
  destruct (_ <=? insert w); lia.
Qed.

Lemma wf_substitute (idx : Index) (needle repl : str) (w : Text) :
  wf w -> wf (ReplaceDialog.substitute idx needle repl w).
Proof. intros H. apply wf_insert_text, wf_delete, H. Qed.

Lemma wf_replace_loop (needle repl : str) (nocase : bool) (fuel : nat) :
  forall idx count w r,
    wf w ->
    ReplaceDialog.replace_loop fuel needle repl nocase idx count w = Some r ->
    wf (snd r).
Proof.
  induction fuel as [|fuel IH]; intros idx count w r Hw H; [discriminate|].
  cbn [ReplaceDialog.replace_loop] in H.
  destruct (search needle idx nocase w) as [idx'|].
  - apply (IH _ _ _ _ (wf_substitute idx' needle repl w Hw) H).
  - injection H as <-. exact Hw.
Qed.

Lemma text_update_title (st : State) : text (_update_title st) = text st.
Proof. reflexivity. Qed.

Lemma wf_save_as (file : string) (st : State) :
  wf (text st) -> wf (text (snd (save_as file st))).
Proof.
  intros Hw. unfold save_as. destruct file as [|a r]; [exact Hw|].
  destruct (TextIO.write_text _ _ _) as [fs' [e|]]; exact Hw.
Qed.

Lemma wf_save_file (file : string) (st : State) :
  wf (text st) -> wf (text (snd (save_file file st))).
Proof.
  intros Hw. unfold save_file.
  destruct (current_path st); [|apply wf_save_as, Hw].
  destruct (TextIO.write_text _ _ _) as [fs' [e|]]; exact Hw.
Qed.

Lemma wf_maybe_save (choice : option bool) (file : string) (st : State) :
  wf (text st) -> wf (text (snd (_maybe_save choice file st))).
Proof.
  intros Hw. unfold _maybe_save.
  destruct (edit_modified (text st)); [|exact Hw].
  destruct choice as [[|]|]; try exact Hw.
  apply wf_save_file. exact Hw.
Qed.

Lemma wf_handle (fuel : nat) (c : Session.command) (st st' : State) :
  wf (text st) -> Session.handle fuel c st = Some st' -> wf (text st').
Proof.
  intros Hw H. destruct c; cbn [Session.handle] in H;
    try (injection H as <-).
  - unfold new_file.
    pose proof (wf_maybe_save choice file st Hw) as H1.
    destruct (_maybe_save choice file st) as [[|] st1]; simpl in H1;
      [|exact H1].
    rewrite text_update_title. simpl. apply wf_delete, H1.
  - unfold open_file.
    pose proof (wf_maybe_save choice file st Hw) as H1.
    destruct (_maybe_save choice file st) as [[|] st1]; simpl in H1;
      [|exact H1].
    destruct opened as [|a r]; [exact H1|].
    destruct (TextIO.read_text _ _) as [data|e]; [|exact H1].
    simpl. apply wf_insert_text, wf_delete, H1.
  - apply wf_save_file, Hw.
  - apply wf_save_as, Hw.
  - unfold exit_app.
    pose proof (wf_maybe_save choice file st Hw) as H1.
    destruct (_maybe_save choice file st) as [[|] st1]; exact H1.
  - destruct answer as [n|]; [|exact Hw].
    rewrite goto_line_text. apply wf_mark_set_insert.
  - exact Hw.
  - unfold key_press. rewrite text_update_status. simpl.
    apply wf_insert_text, Hw.
  - unfold FindDialog.find_next. destruct (FindDialog.find_entry d); [exact Hw|].
    destruct (search _ _ _ _); [apply wf_mark_set_insert | exact Hw].
  - unfold ReplaceDialog.replace_one.
    destruct (ReplaceDialog.find_entry d); [exact Hw|].
    destruct (search _ _ _ _); [apply wf_mark_set_insert | exact Hw].
  - unfold ReplaceDialog.replace_all in H.
    destruct (ReplaceDialog.find_entry d); [injection H as <-; exact Hw|].
    destruct (ReplaceDialog.replace_loop _ _ _ _ _ _ _) as [[count w]|] eqn:E;
      [|discriminate].
    injection H as <-. simpl.
    apply (wf_replace_loop _ _ _ _ _ _ _ _ Hw E).
Qed.

End CaretInvariant.

(** X1. In every state a session can reach -- by any handlers, with
    any dialog answers, and any dispatch of queued [<<Modified>>]
    events in between -- the caret lies within the characters of the
    buffer. *)
Theorem caret_stays_in_buffer (f : TextIO.filesystem) (st : Notepad.State) :
  Session.reachable f st -> Tk.wf (Notepad.text st).
Proof.
  induction 1 as [|fuel c st st' _ IH H|st _ IH _].
  - unfold Notepad.init. rewrite text_update_status. unfold Tk.wf. simpl. lia.
  - exact (wf_handle fuel c st st' IH H).
  - rewrite text_on_modified. exact IH.
Qed.

Lemma caret_stays_in_buffer_witness :
  Tk.wf
    (Notepad.text
       (Notepad.goto_line (Some 2%Z) (Sample.typed Sample.posix "draft"))).
Proof.
  apply (caret_stays_in_buffer Sample.posix).
  apply (Session.reach_handle _ 0 (Session.GotoLine (Some 2%Z))
           (Sample.typed Sample.posix "draft")); [|reflexivity].
  apply (Session.reach_handle _ 0 (Session.Key (text_of_string "draft"))
           (Notepad.init Sample.posix)); [|reflexivity].
  apply Session.reach_init.
Defined.

(** ** Saving: what is written and what is left alone *)

Section Saving.

Import TextIO Tk Notepad.

Lemma set_fs_same (st : State) : set_fs (fs st) st = st.
Proof. destruct st. reflexivity. Qed.

Lemma save_as_write (file : string) (st : State) :
  file <> EmptyString ->
  save_as file st
  = match write_text (fs st) file (rstrip_lf (chars (text st))) with
    | (fs', None) =>
        (true,
         _update_title
           (with_text (edit_modified_set false)
              (set_filename (Some file)
                 (set_fs fs' (show AskSaveAsFilename st)))))
    | (fs', Some e) =>
        (false,
         show (ShowError "Save File" "Failed to save file: " e)
              (set_fs fs' (show AskSaveAsFilename st)))
    end.
Proof.
  intros Hne. unfold save_as. destruct file as [|a r]; [contradiction|].
  change (text (show AskSaveAsFilename st)) with (text st).
  change (fs (show AskSaveAsFilename st)) with (fs st).
  rewrite get_all. unfold content. rewrite rstrip_lf_app_lf. reflexivity.
Qed.

Lemma save_file_write (file path : string) (st : State) :
  current_path st = Some path ->
  save_file file st
  = match write_text (fs st) path (rstrip_lf (chars (text st))) with
    | (fs', None) =>
        (true,
         _update_title (with_text (edit_modified_set false) (set_fs fs' st)))
    | (fs', Some e) =>
        (false,
         show (ShowError "Save File" "Failed to save file: " e)
              (set_fs fs' st))
    end.
Proof.
  intros Hp. unfold save_file. rewrite Hp, get_all. unfold content.
  rewrite rstrip_lf_app_lf. reflexivity.
Qed.

Lemma write_refused (f : filesystem) (p : string) (data : str) :
  p ∈ unwritable f -> write_text f p data = (f, Some PermissionError).
Proof.
  intros H. unfold write_text.
  destruct (decide (p ∈ unwritable f)); [reflexivity | contradiction].
Qed.

Lemma rstrip_lf_keeps_member (c : char) (s : str) :
  In c s -> c <> LF -> In c (rstrip_lf s).
Proof.
  intros Hin Hc. induction s as [|x r IH]; [contradiction|].
  cbn [rstrip_lf]. destruct Hin as [-> | Hin].
  - destruct (rstrip_lf r); [|left; reflexivity].
    destruct (is_lf c) eqn:E; [apply is_lf_eq in E; contradiction|].
    left. reflexivity.
  - specialize (IH Hin). destruct (rstrip_lf r); [contradiction|].
    right. exact IH.
Qed.

Lemma translate_out_keeps_member (b : bool) (c : char) (s : str) :
  In c s -> In c (translate_out b s).
Proof.
  induction s as [|x r IH]; intros Hin; [contradiction|].
  cbn [translate_out]. destruct Hin as [-> | Hin].
  - destruct (is_lf c && b) eqn:E.
    + apply andb_true_iff in E as [E _]. apply is_lf_eq in E. subst c.
      right. left. reflexivity.
    + left. reflexivity.
  - destruct (is_lf x && b); [right; right|right]; apply IH, Hin.
Qed.

Lemma encode_surrogate (c : char) (s : str) :
  In c s -> Utf8.is_scalar c = false -> Utf8.encode s = None.
Proof.
  intros Hin Hc. induction s as [|x r IH]; [contradiction|].
  cbn [Utf8.encode]. destruct Hin as [-> | Hin].
  - unfold Utf8.encode_char. rewrite Hc. reflexivity.
  - rewrite (IH Hin). destruct (Utf8.encode_char x); reflexivity.
Qed.

Lemma write_unencodable (f : filesystem) (p : string) (c : char) (s : str) :
  p ∉ unwritable f -> In c s -> Utf8.is_scalar c = false ->
  write_text f p (rstrip_lf s) = (put p [] f, Some UnicodeEncodeError).
Proof.
  intros Hp Hin Hc. unfold write_text.
  destruct (decide (p ∈ unwritable f)); [contradiction|].
  rewrite (encode_surrogate c); [reflexivity | | exact Hc].
  apply translate_out_keeps_member, rstrip_lf_keeps_member; [exact Hin|].
  intros ->. discriminate.
Qed.

Lemma save_as_refused (path : string) (st : State) :
  path ∈ unwritable (fs st) -> path <> EmptyString ->
  save_as path st
  = (false,
     show (ShowError "Save File" "Failed to save file: " PermissionError)
          (show AskSaveAsFilename st)).
Proof.
  intros Hp Hne.
  rewrite (save_as_write path st Hne), (write_refused _ _ _ Hp).
  change (set_fs (fs st) (show AskSaveAsFilename st))
    with (show AskSaveAsFilename (set_fs (fs st) st)).
  rewrite set_fs_same. reflexivity.
Qed.

Lemma save_file_refused (file path : string) (st : State) :
  current_path st = Some path -> path ∈ unwritable (fs st) ->
  save_file file st
  = (false,
     show (ShowError "Save File" "Failed to save file: " PermissionError) st).
Proof.
  intros Hc Hp.
  rewrite (save_file_write file path st Hc), (write_refused _ _ _ Hp).
  rewrite set_fs_same. reflexivity.
Qed.

End Saving.



(** X3. When the buffer holds a character that UTF-8 cannot carry (a
    surrogate), saving returns [False] and shows the error with buffer,
    caret, flag and path unchanged -- but the file is already open for
    writing by then: it is left empty, whatever it held before. *)
Theorem save_unencodable_empties_file (file path : string) (c : char)
        (st : Notepad.State) :
  In c (Tk.chars (Notepad.text st)) ->
  Utf8.is_scalar c = false ->
  path ∉ TextIO.unwritable (Notepad.fs st) ->
  path <> EmptyString ->
  let failed :=
    ShowError "Save File" "Failed to save file: " TextIO.UnicodeEncodeError in
  let emptied := Notepad.set_fs (TextIO.put path [] (Notepad.fs st)) in
  Notepad.save_as path st
  = (false, Notepad.show failed (emptied (Notepad.show AskSaveAsFilename st)))
  /\ (Notepad.current_path st = Some path ->
      Notepad.save_file file st = (false, Notepad.show failed (emptied st)))
  /\ TextIO.files (Notepad.fs (snd (Notepad.save_as path st))) !! path
     = Some [].
Proof.
  intros Hin Hc Hp Hne failed emptied.
  assert (E : Notepad.save_as path st
              = (false, Notepad.show failed
                          (emptied (Notepad.show AskSaveAsFilename st)))).
  { rewrite (save_as_write path st Hne).
    rewrite (write_unencodable _ _ c _ Hp Hin Hc). reflexivity. }
  split; [exact E|]. split.
  - intros Hcur. rewrite (save_file_write file path st Hcur).
    rewrite (write_unencodable _ _ c _ Hp Hin Hc). reflexivity.
  - rewrite E. simpl. apply lookup_insert_eq.
Qed.

Lemma save_unencodable_empties_file_witness :
  TextIO.files
    (Notepad.fs
       (snd (Notepad.save_as "notes.txt"
               (Notepad.key_press [97; 55357]%Z (Notepad.init Sample.disk)))))
    !! "notes.txt"%string = Some [].
Proof.
  refine (proj2 (proj2 (save_unencodable_empties_file "" "notes.txt" 55357%Z
            (Notepad.key_press [97; 55357]%Z (Notepad.init Sample.disk))
            _ _ _ _))).
  - right. left. reflexivity.
  - reflexivity.
  - vm_compute. set_solver.
  - discriminate.
Defined.

Section SaveSuccess.

Import TextIO Tk Notepad.

Lemma write_text_ok (f f' : filesystem) (p : string) (data : str) :
  write_text f p data = (f', None) ->
  exists bs, Utf8.encode (translate_out (crlf f) data) = Some bs
             /\ f' = put p bs f.
Proof.
  unfold write_text. destruct (decide (p ∈ unwritable f)); [discriminate|].
  destruct (Utf8.encode _) as [bs|]; [|discriminate].
  intros H. injection H as <-. eauto.
Qed.

Lemma save_as_true (file : string) (st st1 : State) :
  save_as file st = (true, st1) ->
  exists bs,
    file <> EmptyString
    /\ Utf8.encode (translate_out (crlf (fs st)) (rstrip_lf (chars (text st))))
       = Some bs
    /\ st1 = _update_title
               (with_text (edit_modified_set false)
                  (set_filename (Some file)
                     (set_fs (put file bs (fs st))
                        (show AskSaveAsFilename st)))).
Proof.
  intros H. destruct file as [|a r] eqn:Ef; [discriminate|]. rewrite <- Ef in *.
  assert (Hne : file <> EmptyString) by (rewrite Ef; discriminate).
  rewrite (save_as_write file st Hne) in H.
  destruct (write_text _ _ _) as [f' [e|]] eqn:Ew; [discriminate|].
  apply write_text_ok in Ew as (bs & Hb & ->).
  injection H as <-. exists bs. auto.
Qed.

Lemma save_file_true (file path : string) (st st1 : State) :
  current_path st = Some path ->
  save_file file st = (true, st1) ->
  exists bs,
    Utf8.encode (translate_out (crlf (fs st)) (rstrip_lf (chars (text st))))
    = Some bs
    /\ st1 = _update_title
               (with_text (edit_modified_set false)
                  (set_fs (put path bs (fs st)) st)).
Proof.
  intros Hp H. rewrite (save_file_write file path st Hp) in H.
  destruct (write_text _ _ _) as [f' [e|]] eqn:Ew; [discriminate|].
  apply write_text_ok in Ew as (bs & Hb & ->).
  injection H as <-. exists bs. auto.
Qed.

Lemma current_path_some (p : string) (st : State) :
  filename st = Some p -> p <> EmptyString -> current_path st = Some p.
Proof.
  intros H Hne. unfold current_path. rewrite H.
  destruct p; [contradiction | reflexivity].
Qed.

Lemma current_path_update_title (st : State) :
  current_path (_update_title st) = current_path st.
Proof. reflexivity. Qed.

Lemma current_path_with_text (g : Text -> Text) (st : State) :
  current_path (with_text g st) = current_path st.
Proof. reflexivity. Qed.

Lemma title_update_title (st : State) :
  title (_update_title st)
  = (display_name st ++ (if modified (text st) then "*" else "")
     ++ " - Notepad")%string.
Proof. reflexivity. Qed.

End SaveSuccess.

(** X4. A successful save (save, or save as) writes the file of the
    document's path and no other: every other file, the permissions,
    the buffer and the caret are as before; the flag is clear, the
    title shows the name of the path without the change marker, and a
    save on a document that has a path shows no dialog and keeps that
    path. *)
Theorem save_writes_only_its_path (file : string) (st st1 : Notepad.State) :
  Notepad.save_file file st = (true, st1)
  \/ Notepad.save_as file st = (true, st1) ->
  exists path,
    Notepad.current_path st1 = Some path
    /\ (forall q, q <> path ->
          TextIO.files (Notepad.fs st1) !! q
          = TextIO.files (Notepad.fs st) !! q)
    /\ TextIO.unreadable (Notepad.fs st1) = TextIO.unreadable (Notepad.fs st)
    /\ TextIO.unwritable (Notepad.fs st1) = TextIO.unwritable (Notepad.fs st)
    /\ Tk.chars (Notepad.text st1) = Tk.chars (Notepad.text st)
    /\ Tk.insert (Notepad.text st1) = Tk.insert (Notepad.text st)
    /\ Tk.modified (Notepad.text st1) = false
    /\ Notepad.title st1 = (Notepad.basename path ++ " - Notepad")%string
    /\ (forall p, Notepad.current_path st = Some p ->
          Notepad.save_file file st = (true, st1) ->
          path = p /\ Notepad.shown st1 = Notepad.shown st).
Proof.
  assert (Has : Notepad.save_as file st = (true, st1) ->
    exists path,
      Notepad.current_path st1 = Some path
      /\ (forall q, q <> path ->
            TextIO.files (Notepad.fs st1) !! q
            = TextIO.files (Notepad.fs st) !! q)
      /\ TextIO.unreadable (Notepad.fs st1) = TextIO.unreadable (Notepad.fs st)
      /\ TextIO.unwritable (Notepad.fs st1) = TextIO.unwritable (Notepad.fs st)
      /\ Tk.chars (Notepad.text st1) = Tk.chars (Notepad.text st)
      /\ Tk.insert (Notepad.text st1) = Tk.insert (Notepad.text st)
      /\ Tk.modified (Notepad.text st1) = false
      /\ Notepad.title st1 = (Notepad.basename path ++ " - Notepad")%string).
  { intros H. apply save_as_true in H as (bs & Hne & _ & ->).
    exists file.
    assert (Hc : forall x, Notepad.current_path
                   (Notepad.set_filename (Some file) x) = Some file)
      by (intros x; apply current_path_some; [reflexivity | exact Hne]).
    split; [rewrite current_path_update_title, current_path_with_text;
            apply Hc|].
    split.
    { intros q Hq. simpl. apply lookup_insert_ne. congruence. }
    repeat split.
    rewrite title_update_title. unfold Notepad.display_name.
    rewrite current_path_with_text, Hc. reflexivity. }
  intros Hsave.
  destruct (Notepad.current_path st) as [p|] eqn:Ep.
  - destruct Hsave as [H | H].
    + destruct (save_file_true file p st st1 Ep H) as (bs & _ & Hst).
      subst st1. exists p. split; [exact Ep|]. split.
      { intros q Hq. simpl. apply lookup_insert_ne. congruence. }
      do 5 (split; [reflexivity|]). split.
      * rewrite title_update_title. unfold Notepad.display_name.
        change (Notepad.current_path
                  (Notepad.with_text (Tk.edit_modified_set false)
                     (Notepad.set_fs (TextIO.put p bs (Notepad.fs st)) st)))
          with (Notepad.current_path st).
        rewrite Ep. reflexivity.
      * intros p' Hp' _. split; [congruence | reflexivity].
    + destruct (Has H) as (path & H1 & H2 & H3 & H4 & H5 & H6 & H7 & H8).
      exists path.
      split; [exact H1|]. split; [exact H2|]. split; [exact H3|].
      split; [exact H4|]. split; [exact H5|]. split; [exact H6|].
      split; [exact H7|]. split; [exact H8|].
      intros p' Hp' Hs.
      destruct (save_file_true file p st st1 Ep Hs) as (bs & _ & Hst).
      subst st1. change (Notepad.current_path st = Some path) in H1.
      split; [congruence | reflexivity].
  - assert (H : Notepad.save_as file st = (true, st1)).
    { destruct Hsave as [H | H]; [|exact H].
      unfold Notepad.save_file in H. rewrite Ep in H. exact H. }
    destruct (Has H) as (path & H1 & H2 & H3 & H4 & H5 & H6 & H7 & H8).
    exists path.
    split; [exact H1|]. split; [exact H2|]. split; [exact H3|].
    split; [exact H4|]. split; [exact H5|]. split; [exact H6|].
    split; [exact H7|]. split; [exact H8|].
    intros p' Hp'. discriminate.
Qed.

Lemma save_writes_only_its_path_witness :
  exists path,
    Notepad.current_path
      (snd (Notepad.save_as "out.txt" (Sample.typed Sample.disk "draft")))
    = Some path
    /\ forall q, q <> path ->
         TextIO.files
           (Notepad.fs
              (snd (Notepad.save_as "out.txt"
                      (Sample.typed Sample.disk "draft")))) !! q
         = TextIO.files (Notepad.fs (Sample.typed Sample.disk "draft")) !! q.
Proof.
  destruct (save_writes_only_its_path "out.txt"
              (Sample.typed Sample.disk "draft")
              (snd (Notepad.save_as "out.txt"
                      (Sample.typed Sample.disk "draft"))))
    as (path & H1 & H2 & _).
  - right. reflexivity.
  - exists path. split; [exact H1 | exact H2].
Defined.

(** ** The prompt, answered Yes *)

Section ClearBuffer.

Import Tk Notepad.

(** [delete('1.0', END)] empties the buffer and leaves the caret at its
    start. *)
Lemma delete_all (w : Text) :
  wf w ->
  chars (delete (LineChar 1 0) End w) = []
  /\ insert (delete (LineChar 1 0) End w) = 0.
Proof.
  intros Hw. unfold delete. rewrite resolve_start. simpl resolve.
  unfold delete_range. rewrite content_length.
  destruct (length (chars w) <? S (length (chars w))) eqn:E;
    [|apply Nat.ltb_ge in E; lia].
  unfold wf in Hw.
  destruct (0 <? length (chars w)) eqn:E0.
  - apply Nat.ltb_lt in E0.
    rewrite chars_set_chars, skipn_all. split; [reflexivity|].
    unfold set_chars, touch, mark_after_delete. simpl.
    destruct (modified w); simpl;
      destruct (insert w <=? 0) eqn:E1;
      try (apply Nat.leb_le in E1);
      destruct (insert w <? length (chars w)) eqn:E2;
      try (apply Nat.ltb_ge in E2); lia.
  - apply Nat.ltb_ge in E0.
    destruct (chars w) eqn:Ec; [|simpl in E0; lia].
    simpl in Hw. split; [reflexivity | lia].
Qed.

End ClearBuffer.



(** X6. On a dirty document with a path, answering Yes to the prompt
    of new writes the buffer to that path before the buffer is emptied:
    afterwards the file holds the encoded text, the buffer is empty,
    the caret is at its start and the document is untitled.  Exit
    likewise writes the file, then destroys the window. *)
Theorem yes_saves_before_discarding (file path : string)
        (bs : list Utf8.byte) (st : Notepad.State) :
  Tk.modified (Notepad.text st) = true ->
  Tk.wf (Notepad.text st) ->
  Notepad.current_path st = Some path ->
  path ∉ TextIO.unwritable (Notepad.fs st) ->
  Utf8.encode
    (TextIO.translate_out (TextIO.crlf (Notepad.fs st))
       (rstrip_lf (Tk.chars (Notepad.text st)))) = Some bs ->
  let st' := Notepad.new_file (Some true) file st in
  let gone := Notepad.exit_app (Some true) file st in
  TextIO.files (Notepad.fs st') !! path = Some bs
  /\ Tk.chars (Notepad.text st') = []
  /\ Tk.insert (Notepad.text st') = 0
  /\ Notepad.filename st' = None
  /\ Notepad.shown st' = Notepad.shown st ++ [Notepad.unsaved_prompt]
  /\ TextIO.files (Notepad.fs gone) !! path = Some bs
  /\ Notepad.destroyed gone = true.
Proof.
  intros Hm Hw Hp Hnw Henc st' gone.
  assert (E : Notepad._maybe_save (Some true) file st
              = (true,
                 Notepad._update_title
                   (Notepad.with_text (Tk.edit_modified_set false)
                      (Notepad.set_fs (TextIO.put path bs (Notepad.fs st))
                         (Notepad.show Notepad.unsaved_prompt st))))).
  { rewrite (maybe_save_yes file st Hm).
    rewrite (save_file_write file path
               (Notepad.show Notepad.unsaved_prompt st) Hp).
    change (Notepad.fs (Notepad.show Notepad.unsaved_prompt st))
      with (Notepad.fs st).
    change (Notepad.text (Notepad.show Notepad.unsaved_prompt st))
      with (Notepad.text st).
    unfold TextIO.write_text.
    destruct (decide (path ∈ TextIO.unwritable (Notepad.fs st)));
      [contradiction|].
    rewrite Henc. reflexivity. }
  unfold st', gone, Notepad.new_file, Notepad.exit_app. rewrite E.
  split; [simpl; apply lookup_insert_eq|].
  destruct (delete_all (Tk.edit_modified_set false (Notepad.text st)) Hw)
    as [H1 H2].
  split; [exact H1|]. split; [exact H2|].
  split; [reflexivity|]. split; [reflexivity|].
  split; [simpl; apply lookup_insert_eq | reflexivity].
Qed.

Lemma yes_saves_before_discarding_witness :
  TextIO.files
    (Notepad.fs
       (Notepad.new_file (Some true) ""
          (Notepad.set_filename (Some "notes.txt")
             (Sample.typed Sample.disk "ok"))))
    !! "notes.txt"%string = Some [111; 107]%Z.
Proof.
  refine (proj1 (yes_saves_before_discarding "" "notes.txt" [111; 107]%Z
            (Notepad.set_filename (Some "notes.txt")
               (Sample.typed Sample.disk "ok")) _ _ _ _ _)).
  - reflexivity.
  - unfold Tk.wf. vm_compute. lia.
  - reflexivity.
  - vm_compute. set_solver.
  - reflexivity.
Defined.

(** ** Opening a file, starting a new document *)

Section OpenSuccess.

Import TextIO Tk Notepad.

Lemma translate_in_no_cr_bounded (n : nat) : forall s : str,
  length s <= n -> ~ In CR (translate_in s).
Proof.
  induction n as [|n IH]; intros s Hn.
  - destruct s; [intros [] | simpl in Hn; lia].
  - destruct s as [|c r]; [intros []|]. simpl in Hn.
    cbn [translate_in]. destruct (is_cr c) eqn:E.
    + destruct r as [|c' r'].
      * intros [H | []]. discriminate.
      * simpl in Hn. destruct (is_lf c').
        -- intros [H | H]; [discriminate|]. apply (IH r'); [lia | exact H].
        -- intros [H | H]; [discriminate|].
           apply (IH (c' :: r')); [simpl; lia | exact H].
    + intros [H | H].
      * subst c. discriminate.
      * apply (IH r); [lia | exact H].
Qed.

(** What universal newlines hand over holds no carriage return. *)
Lemma translate_in_no_cr (s : str) : ~ In CR (translate_in s).
Proof. apply (translate_in_no_cr_bounded (length s)). lia. Qed.

Lemma read_text_ok (f : filesystem) (p : string) (bs : list Utf8.byte)
      (s : str) :
  files f !! p = Some bs -> p ∉ unreadable f -> Utf8.decode bs = Some s ->
  read_text f p = Ok (translate_in s).
Proof.
  intros Hf Hr Hd. unfold read_text. rewrite Hf.
  destruct (decide (p ∈ unreadable f)); [contradiction|].
  rewrite Hd. reflexivity.
Qed.

(** The widget after [delete('1.0', END)] and [insert('1.0', data)]. *)
Lemma replace_all_text (data : str) (w : Text) :
  wf w ->
  let w' := insert_text (LineChar 1 0) data (delete (LineChar 1 0) End w) in
  chars w' = data /\ insert w' = length data
  /\ (data <> [] -> modified w' = true).
Proof.
  intros Hw w'. split; [apply chars_replace_all_text|].
  destruct (delete_all w Hw) as [H1 H2].
  unfold w', insert_text. destruct data as [|c r] eqn:Ed.
  - split; [exact H2 | congruence].
  - rewrite <- Ed. rewrite resolve_start, H1, H2.
    unfold set_chars, touch, mark_after_insert. simpl.
    destruct (modified (delete (LineChar 1 0) End w)); simpl; auto.
Qed.

Lemma open_file_read (choice : option bool) (file opened : string)
      (data : str) (st st1 : State) :
  opened <> EmptyString ->
  _maybe_save choice file st = (true, st1) ->
  read_text (fs st1) opened = Ok data ->
  open_file choice file opened st
  = with_text (edit_modified_set false)
      (_update_title
         (set_filename (Some opened)
            (with_text
               (fun w => insert_text (LineChar 1 0) data
                           (delete (LineChar 1 0) End w))
               (show AskOpenFilename st1)))).
Proof.
  intros Hne Hm Hr. unfold open_file. rewrite Hm.
  destruct opened as [|a r]; [contradiction|].
  change (fs (show AskOpenFilename st1)) with (fs st1).
  rewrite Hr. reflexivity.
Qed.

End OpenSuccess.

(** X7. A successful open replaces the whole buffer by the decoded
    text of the file with universal newlines applied, so the buffer
    holds no carriage return afterwards; the caret is at the end of
    the text, the path is the opened one, the flag is clear, and
    opening writes no file. *)
Theorem open_replaces_buffer (choice : option bool) (file opened : string)
        (bs : list Utf8.byte) (s : str) (st st1 : Notepad.State) :
  Tk.wf (Notepad.text st) ->
  Notepad._maybe_save choice file st = (true, st1) ->
  opened <> EmptyString ->
  TextIO.files (Notepad.fs st1) !! opened = Some bs ->
  opened ∉ TextIO.unreadable (Notepad.fs st1) ->
  Utf8.decode bs = Some s ->
  let st' := Notepad.open_file choice file opened st in
  Tk.chars (Notepad.text st') = TextIO.translate_in s
  /\ ~ In CR (Tk.chars (Notepad.text st'))
  /\ Tk.insert (Notepad.text st') = length (TextIO.translate_in s)
  /\ Tk.modified (Notepad.text st') = false
  /\ Notepad.current_path st' = Some opened
  /\ Notepad.fs st' = Notepad.fs st1
  /\ Notepad.shown st' = Notepad.shown st1 ++ [AskOpenFilename].
Proof.
  intros Hw Hm Hne Hf Hr Hd st'.
  pose proof (wf_maybe_save choice file st Hw) as Hw1.
  rewrite Hm in Hw1. simpl in Hw1.
  pose proof (open_file_read choice file opened _ st st1 Hne Hm
                (read_text_ok _ _ _ _ Hf Hr Hd)) as E.
  fold st' in E.
  destruct (replace_all_text (TextIO.translate_in s) (Notepad.text st1) Hw1)
    as (Hc & Hi & _).
  rewrite E. simpl.
  split; [exact Hc|]. split; [rewrite Hc; apply translate_in_no_cr|].
  split; [exact Hi|]. split; [reflexivity|]. split; [|split; reflexivity].
  apply current_path_some; [reflexivity | exact Hne].
Qed.

Lemma open_replaces_buffer_witness :
  Tk.chars
    (Notepad.text
       (Notepad.open_file (Some false) "" "notes.txt"
          (Sample.typed Sample.disk "draft")))
  = TextIO.translate_in [104; 105]%Z.
Proof.
  refine (proj1 (open_replaces_buffer (Some false) "" "notes.txt"
            [104; 105]%Z [104; 105]%Z
            (Sample.typed Sample.disk "draft")
            (Notepad.show Notepad.unsaved_prompt
               (Sample.typed Sample.disk "draft")) _ _ _ _ _ _)).
  - unfold Tk.wf. vm_compute. lia.
  - reflexivity.
  - discriminate.
  - reflexivity.
  - vm_compute. set_solver.
  - reflexivity.
Defined.

(** X8. [open_file] sets the title before it clears the modified flag:
    after a successful open of a file that is not empty the flag is
    clear, yet the title is the file's name with the change marker. *)
Theorem open_title_keeps_marker (choice : option bool) (file opened : string)
        (bs : list Utf8.byte) (s : str) (st st1 : Notepad.State) :
  Tk.wf (Notepad.text st) ->
  Notepad._maybe_save choice file st = (true, st1) ->
  opened <> EmptyString ->
  TextIO.files (Notepad.fs st1) !! opened = Some bs ->
  opened ∉ TextIO.unreadable (Notepad.fs st1) ->
  Utf8.decode bs = Some s ->
  TextIO.translate_in s <> [] ->
  let st' := Notepad.open_file choice file opened st in
  Notepad.title st' = (Notepad.basename opened ++ "* - Notepad")%string
  /\ Tk.modified (Notepad.text st') = false.
Proof.
  intros Hw Hm Hne Hf Hr Hd Hdata st'.
  pose proof (wf_maybe_save choice file st Hw) as Hw1.
  rewrite Hm in Hw1. simpl in Hw1.
  pose proof (open_file_read choice file opened _ st st1 Hne Hm
                (read_text_ok _ _ _ _ Hf Hr Hd)) as E.
  fold st' in E.
  destruct (replace_all_text (TextIO.translate_in s) (Notepad.text st1) Hw1)
    as (_ & _ & Hmod).
  specialize (Hmod Hdata).
  rewrite E. split; [|reflexivity].
  change (Notepad.title
            (Notepad.with_text (Tk.edit_modified_set false) ?x))
    with (Notepad.title x).
  rewrite title_update_title. unfold Notepad.display_name.
  rewrite (current_path_some opened); [|reflexivity | exact Hne].
  simpl Notepad.text. rewrite Hmod. reflexivity.
Qed.

Lemma open_title_keeps_marker_witness :
  Notepad.title
    (Notepad.open_file None "" "notes.txt" (Notepad.init Sample.disk))
  = "notes.txt* - Notepad"%string.
Proof.
  refine (proj1 (open_title_keeps_marker None "" "notes.txt"
            [104; 105]%Z [104; 105]%Z
            (Notepad.init Sample.disk) (Notepad.init Sample.disk)
            _ _ _ _ _ _ _)).
  - unfold Tk.wf. vm_compute. lia.
  - reflexivity.
  - discriminate.
  - reflexivity.
  - vm_compute. set_solver.
  - reflexivity.
  - discriminate.
Defined.

(** X9. When new goes on without a save -- the document is clean, or
    the answer to the prompt is No -- no file is written: the buffer is
    emptied, the caret is at its start and the document is untitled.
    [new_file] does not clear the modified flag: emptying a buffer that
    held text sets it, and the title then reads "Untitled*". *)
Theorem new_file_discards (choice : option bool) (file : string)
        (st : Notepad.State) :
  Tk.wf (Notepad.text st) ->
  Tk.modified (Notepad.text st) = false \/ choice = Some false ->
  let st' := Notepad.new_file choice file st in
  Tk.chars (Notepad.text st') = []
  /\ Tk.insert (Notepad.text st') = 0
  /\ Notepad.filename st' = None
  /\ Notepad.fs st' = Notepad.fs st
  /\ (Tk.chars (Notepad.text st) <> [] ->
      Tk.modified (Notepad.text st') = true
      /\ Notepad.title st' = "Untitled* - Notepad"%string).
Proof.
  intros Hw Hc st'.
  assert (E : exists st1,
            Notepad._maybe_save choice file st = (true, st1)
            /\ Notepad.text st1 = Notepad.text st
            /\ Notepad.fs st1 = Notepad.fs st).
  { destruct (Tk.modified (Notepad.text st)) eqn:Em.
    - destruct Hc as [Hc | ->]; [discriminate|].
      rewrite (maybe_save_discard file st Em). eexists. repeat split.
    - rewrite (maybe_save_clean choice file st Em). eexists. repeat split. }
  destruct E as (st1 & E & Ht & Hf).
  unfold st', Notepad.new_file. rewrite E.
  rewrite text_update_title. simpl Notepad.text. rewrite Ht.
  destruct (delete_all (Notepad.text st) Hw) as [H1 H2].
  split; [exact H1|]. split; [exact H2|]. split; [reflexivity|].
  split; [exact Hf|].
  intros Hne.
  assert (Hmod : Tk.modified
                   (Tk.delete (Tk.LineChar 1 0) Tk.End (Notepad.text st))
                 = true).
  { unfold Tk.delete. rewrite resolve_start. simpl Tk.resolve.
    unfold Tk.delete_range. rewrite content_length.
    destruct (length (Tk.chars (Notepad.text st))
              <? S (length (Tk.chars (Notepad.text st)))) eqn:E1;
      [|apply Nat.ltb_ge in E1; lia].
    destruct (0 <? length (Tk.chars (Notepad.text st))) eqn:E0.
    - unfold Tk.set_chars, Tk.touch. simpl.
      destruct (Tk.modified (Notepad.text st)); reflexivity.
    - apply Nat.ltb_ge in E0.
      destruct (Tk.chars (Notepad.text st)); [contradiction|simpl in E0; lia]. }
  split; [exact Hmod|].
  rewrite title_update_title. simpl Notepad.text. rewrite Ht, Hmod.
  reflexivity.
Qed.

Lemma new_file_discards_witness :
  Tk.chars
    (Notepad.text
       (Notepad.new_file (Some false) "" (Sample.typed Sample.disk "draft")))
  = [].
Proof.
  refine (proj1 (new_file_discards (Some false) ""
                   (Sample.typed Sample.disk "draft") _ _)).
  - unfold Tk.wf. vm_compute. lia.
  - right. reflexivity.
Defined.

(** ** Replacing *)

Section ReplaceFacts.

Import Tk Notepad.

(** An occurrence splits the text around it. *)
Lemma occurrence_split (nocase : bool) (needle : str) (q : nat) (s : str) :
  occurs_at tolower nocase needle q s ->
  s = firstn q s ++ firstn (length needle) (skipn q s)
      ++ skipn (q + length needle) s
  /\ length (firstn q s) = q
  /\ length (firstn (length needle) (skipn q s)) = length needle.
Proof.
  intros [Hq Hm]. apply match_here_length in Hm. rewrite length_skipn in Hm.
  split; [|split].
  - replace (q + length needle) with (length needle + q) by lia.
    rewrite <- skipn_skipn, !firstn_skipn. reflexivity.
  - rewrite length_firstn. lia.
  - rewrite length_firstn, length_skipn. lia.
Qed.

Lemma single_pass_length (nocase : bool) (c : char) (needle' repl : str)
      (s : str) : forall skip,
  length (snd (single_pass tolower nocase c needle' repl skip s))
  + fst (single_pass tolower nocase c needle' repl skip s)
    * S (length needle')
  + Nat.min skip (length s)
  = length s
    + fst (single_pass tolower nocase c needle' repl skip s) * length repl.
Proof.
  induction s as [|x r IH]; intros skip.
  - simpl. lia.
  - rewrite single_pass_cons. destruct skip as [|k].
    + destruct (match_here tolower nocase (c :: needle') (x :: r)) eqn:E.
      * specialize (IH (length needle')).
        apply match_here_length in E. cbn [length] in E.
        cbn [fst snd]. rewrite length_app. cbn [length].
        rewrite !Nat.mul_succ_l. lia.
      * specialize (IH 0). cbn [fst snd length]. lia.
    + specialize (IH k). cbn [length]. lia.
Qed.

Lemma single_pass_replacements (nocase : bool) (c : char)
      (needle' repl : str) (s : str) : forall skip,
  fst (single_pass tolower nocase c needle' repl skip s) * length repl
  <= length (snd (single_pass tolower nocase c needle' repl skip s)).
Proof.
  induction s as [|x r IH]; intros skip.
  - simpl. lia.
  - rewrite single_pass_cons. destruct skip as [|k].
    + destruct (match_here tolower nocase (c :: needle') (x :: r)).
      * specialize (IH (length needle')).
        cbn [fst snd]. rewrite length_app, Nat.mul_succ_l. lia.
      * specialize (IH 0). cbn [fst snd length]. lia.
    + apply IH.
Qed.

(** Whatever fuel lets the loop end, it ends with the single pass. *)
Lemma replace_loop_result (nocase : bool) (c : char) (needle' repl : str)
      (fuel count : nat) (w : Text) (r : nat * Text) :
  ReplaceDialog.replace_loop fuel (c :: needle') repl nocase
    (LineChar 1 0) count w = Some r ->
  fst r = count
          + fst (single_pass tolower nocase c needle' repl 0 (chars w))
  /\ chars (snd r)
     = snd (single_pass tolower nocase c needle' repl 0 (chars w)).
Proof.
  intros H.
  destruct (replace_loop_single_pass nocase c needle' repl
              (S (length (chars w))) (chars w) [] (LineChar 1 0) count w
              eq_refl (resolve_start w) (Nat.lt_succ_diag_r _))
    as (w' & Hloop & Hchars).
  apply (replace_loop_more_fuel _ _ _ (S (length (chars w)))) in H.
  apply (replace_loop_more_fuel _ _ _ fuel) in Hloop.
  rewrite Nat.add_comm, Hloop in H. injection H as <-.
  split; [reflexivity | exact Hchars].
Qed.

End ReplaceFacts.







(** ** The event loop, the status bar and the title *)

Section StatusAndEvents.

Import Tk Notepad.

Lemma on_modified_frame (st : State) :
  filename (_on_modified st) = filename st
  /\ fs (_on_modified st) = fs st
  /\ shown (_on_modified st) = shown st
  /\ title (_on_modified st) = title st
  /\ destroyed (_on_modified st) = destroyed st.
Proof.
  unfold _on_modified, _update_status.
  destruct (index _ Insert). repeat split.
Qed.

(** With the flag clear, every dispatch takes one event off the queue
    and changes nothing of the document. *)
Lemma mainloop_drains (n : nat) : forall (extra : nat) (st : State),
  pending (text st) <= n ->
  modified (text st) = false ->
  exists st',
    mainloop (n + extra) st = Some st'
    /\ pending (text st') = 0
    /\ modified (text st') = false
    /\ chars (text st') = chars (text st)
    /\ insert (text st') = insert (text st)
    /\ filename st' = filename st
    /\ fs st' = fs st
    /\ shown st' = shown st.
Proof.
  induction n as [|n IH]; intros extra st Hp Hm.
  - exists st. rewrite mainloop_idle by lia. repeat split; try lia; auto.
  - destruct (pending (text st)) as [|k] eqn:Ek.
    + exists st. rewrite (mainloop_idle _ _ Ek). auto 10.
    + cbn [Nat.add mainloop]. rewrite Ek.
      destruct (on_modified_frame (with_text take_event st))
        as (F1 & F2 & F3 & _).
      destruct (IH extra (_on_modified (with_text take_event st)))
        as (st' & H1 & H2 & H3 & H4 & H5 & H6 & H7 & H8).
      * rewrite text_on_modified. simpl. rewrite Ek, Hm. simpl. lia.
      * rewrite text_on_modified. reflexivity.
      * exists st'. rewrite text_on_modified in H4, H5.
        rewrite H6, H7, H8, F1, F2, F3. auto 10.
Qed.

Lemma status_update_status (st : State) :
  status (_update_status st)
  = (display_name st ++ "    Ln " ++ dec (fst (index (text st) Insert))
     ++ ", Col " ++ dec (snd (index (text st) Insert) + 1) ++ "    "
     ++ (if wrap_var st then "WRAP" else "NOWRAP"))%string.
Proof.
  unfold _update_status. destruct (index (text st) Insert). reflexivity.
Qed.

End StatusAndEvents.

(** X13. The event loop comes to rest.  The handler of [<<Modified>>]
    resets the flag, which queues at most one further event, so with
    fuel for one dispatch more than there are queued events the queue
    is empty; buffer, caret, path, files and dialogs are untouched, and
    the flag is clear unless nothing was queued at all. *)
Theorem event_loop_comes_to_rest (extra : nat) (st : Notepad.State) :
  exists st',
    Notepad.mainloop (S (Tk.pending (Notepad.text st)) + extra) st = Some st'
    /\ Tk.pending (Notepad.text st') = 0
    /\ Tk.modified (Notepad.text st')
       = Tk.modified (Notepad.text st)
         && (Tk.pending (Notepad.text st) =? 0)
    /\ Tk.chars (Notepad.text st') = Tk.chars (Notepad.text st)
    /\ Tk.insert (Notepad.text st') = Tk.insert (Notepad.text st)
    /\ Notepad.filename st' = Notepad.filename st
    /\ Notepad.fs st' = Notepad.fs st
    /\ Notepad.shown st' = Notepad.shown st.
Proof.
  destruct (Tk.pending (Notepad.text st)) as [|n] eqn:En.
  - exists st. rewrite (mainloop_idle _ _ En), andb_true_r. auto 10.
  - cbn [Nat.add Notepad.mainloop]. rewrite En.
    set (st1 := Notepad._on_modified (Notepad.with_text Notepad.take_event st)).
    destruct (on_modified_frame (Notepad.with_text Notepad.take_event st))
      as (F1 & F2 & F3 & _). fold st1 in F1, F2, F3.
    destruct (mainloop_drains (S n) extra st1)
      as (st' & H1 & H2 & H3 & H4 & H5 & H6 & H7 & H8).
    + unfold st1. rewrite text_on_modified. simpl. rewrite En.
      destruct (eqb (Tk.modified (Notepad.text st)) false); simpl; lia.
    + unfold st1. rewrite text_on_modified. reflexivity.
    + exists st'. unfold st1 in H4, H5. rewrite text_on_modified in H4, H5.
      rewrite H6, H7, H8, F1, F2, F3, andb_false_r. auto 10.
Qed.

(** X14. After [goto_line(n)] the status bar shows the document's
    name, the line the caret was put on -- [n] clamped to the lines of
    the buffer -- column 1, and the wrap mode. *)
Theorem goto_line_status (n : Z) (st : Notepad.State) :
  let last := Tk.line_count (Notepad.text st) in
  let line := Z.to_nat (Tk.clamp 1 (Z.of_nat last) n) in
  Notepad.status (Notepad.goto_line (Some n) st)
  = (Notepad.display_name st ++ "    Ln " ++ dec line ++ ", Col 1    "
     ++ (if Notepad.wrap_var st then "WRAP" else "NOWRAP"))%string.
Proof.
  intros last line.
  assert (Hix : Tk.index (Notepad.text (Notepad.goto_line (Some n) st))
                  Tk.Insert = (line, 0)).
  { rewrite goto_line_text. apply mark_set_line.
    unfold Tk.clamp, last, Tk.line_count. lia. }
  unfold Notepad.goto_line in *. cbv zeta in *.
  rewrite text_update_status in Hix.
  rewrite status_update_status, Hix. reflexivity.
Qed.

Section Basename.

Import Notepad.

Local Open Scope string_scope.

Lemma append_empty (s : string) : String.append s "" = s.
Proof.
  induction s as [|a r IH]; [reflexivity|].
  change (String a (String.append r "") = String a r). f_equal. exact IH.
Qed.

Lemma append_cons (s r : string) (a : ascii) :
  String.append (String.append s (String a "")) r
  = String.append s (String a r).
Proof.
  induction s as [|b t IH]; [reflexivity|].
  change (String b (String.append (String.append t (String a "")) r)
          = String b (String.append t (String a r))).
  f_equal. exact IH.
Qed.

Lemma basename_from_no_slash (name : string) : forall cur,
  ~ In "/"%char (list_ascii_of_string name) ->
  basename_from cur name = String.append cur name.
Proof.
  induction name as [|a r IH]; intros cur H.
  - symmetry. apply append_empty.
  - cbn [basename_from]. destruct (Ascii.eqb a "/") eqn:E.
    + apply Ascii.eqb_eq in E. subst a. exfalso. apply H. left. reflexivity.
    + rewrite IH by (intros Hin; apply H; right; exact Hin).
      apply append_cons.
Qed.

Lemma basename_from_dir (dir name : string) : forall cur,
  basename_from cur (String.append dir (String "/" name))
  = basename_from "" name.
Proof.
  induction dir as [|a r IH]; intros cur.
  - reflexivity.
  - change (String.append (String a r) (String "/" name))
      with (String a (String.append r (String "/" name))).
    cbn [basename_from]. destruct (Ascii.eqb a "/"); apply IH.
Qed.

End Basename.

(** X15. The title shows the file name without its directories: for a
    POSIX path [dir/name] whose [name] has no slash, a successful save
    as makes the title [name - Notepad]. *)
Theorem title_shows_file_name (dir name : string) (st st1 : Notepad.State) :
  ~ In "/"%char (list_ascii_of_string name) ->
  Notepad.save_as (dir ++ "/" ++ name) st = (true, st1) ->
  Notepad.basename (dir ++ "/" ++ name) = name
  /\ Notepad.title st1 = (name ++ " - Notepad")%string.
Proof.
  intros Hname Hsave.
  assert (Hb : Notepad.basename (dir ++ "/" ++ name) = name).
  { unfold Notepad.basename.
    change (dir ++ "/" ++ name)%string
      with (String.append dir (String "/" name)).
    rewrite basename_from_dir.
    apply (basename_from_no_slash name EmptyString Hname). }
  split; [exact Hb|].
  destruct (save_as_true _ st st1 Hsave) as (bs & Hne & _ & Hst).
  subst st1. rewrite title_update_title. unfold Notepad.display_name.
  rewrite current_path_with_text.
  rewrite (current_path_some (dir ++ "/" ++ name)); [|reflexivity | exact Hne].
  rewrite Hb. reflexivity.
Qed.

Lemma title_shows_file_name_witness :
  Notepad.title
    (snd (Notepad.save_as "/home/me/notes.txt"
            (Sample.typed Sample.posix "draft")))
  = "notes.txt - Notepad"%string.
Proof.
  refine (proj2 (title_shows_file_name "/home/me" "notes.txt"
                   (Sample.typed Sample.posix "draft")
                   (snd (Notepad.save_as "/home/me/notes.txt"
                           (Sample.typed Sample.posix "draft"))) _ _)).
  - vm_compute. intuition discriminate.
  - reflexivity.
Defined.

(** ** The font dialog *)

Section Fonts.

Import FontDialog.

Lemma index_of_nth {A : Type} (eqb : A -> A -> bool) (x default : A)
      (l : list A) :
  (forall a b, eqb a b = true -> a = b) ->
  forall i, index_of eqb x l = Some i -> nth i l default = x /\ i < length l.
Proof.
  intros Heq. induction l as [|y r IH]; intros i H; [discriminate|].
  simpl in H. destruct (eqb x y) eqn:E.
  - injection H as <-. apply Heq in E. subst y. simpl. split; [reflexivity|lia].
  - destruct (index_of eqb x r) as [j|]; [|discriminate].
    injection H as <-. destruct (IH j eq_refl) as [H1 H2].
    simpl. split; [exact H1 | lia].
Qed.

Lemma to_uint_nonnil (n : nat) : Nat.to_uint n <> Decimal.Nil.
Proof.
  rewrite <- (DecimalNat.Unsigned.of_to n) at 1.
  rewrite DecimalNat.Unsigned.to_of. apply DecimalFacts.unorm_nonnil.
Qed.

(** [int(str(n))] is [n]. *)
Lemma int_dec (n : nat) : int (dec n) = Some n.
Proof.
  unfold int, dec.
  pose proof (NilZero.usu (Nat.to_uint n) (to_uint_nonnil n)) as H.
  unfold NilZero.string_of_uint in H.
  destruct (Nat.to_uint n) eqn:E; [exfalso; exact (to_uint_nonnil n E)| ..];
    rewrite H; simpl; rewrite <- E, DecimalNat.Unsigned.of_to; reflexivity.
Qed.

Lemma insert_sorted_In (x y : string) (l : list string) :
  In y (insert_sorted x l) <-> y = x \/ In y l.
Proof.
  induction l as [|z r IH]; simpl.
  - intuition.
  - destruct (String.leb x z); simpl; [intuition|].
    rewrite IH. intuition.
Qed.

(** Sorting keeps the families. *)
Lemma sort_In (y : string) (l : list string) : In y (sort l) <-> In y l.
Proof.
  induction l as [|x r IH]; simpl; [reflexivity|].
  rewrite insert_sorted_In, IH. intuition.
Qed.

Lemma get_size (i : nat) :
  i < length sizes -> int (get i (map dec sizes)) = Some (nth i sizes 0).
Proof.
  intros H. unfold get.
  rewrite (nth_indep _ "" (dec 0)) by (rewrite length_map; exact H).
  rewrite map_nth. apply int_dec.
Qed.

Lemma valid_create (export : bool) (families : list string) (n : Fonts) :
  valid families (create export families n).
Proof.
  unfold valid, create.
  destruct (index_of String.eqb (current_font_family n) (sort families))
    as [i|] eqn:Ef;
    destruct (index_of Nat.eqb (current_font_size n) sizes) as [j|] eqn:Es;
    try (apply (index_of_nth String.eqb _ ""%string) in Ef as [_ Ef];
         [|intros a b; apply String.eqb_eq]);
    try (apply (index_of_nth Nat.eqb _ 0) in Es as [_ Es];
         [|intros a b; apply Nat.eqb_eq]);
    unfold select_family, select_size;
    cbn [family_box family_sel size_box size_sel];
    (split; [reflexivity|]); (split; [reflexivity|]);
    split; intros k Hk; destruct export; try discriminate;
    injection Hk as <-; try assumption; rewrite length_map; assumption.
Qed.

Lemma valid_click (export : bool) (families : list string) (i : nat)
      (d : Dialog) :
  valid families d ->
  valid families (click_family export i d)
  /\ valid families (click_size export i d).
Proof.
  intros (H1 & H2 & H3 & H4). unfold click_family, click_size. split.
  - destruct (i <? length (family_box d)) eqn:E; [|repeat split; assumption].
    apply Nat.ltb_lt in E. unfold valid, select_family.
    cbn [family_box family_sel size_box size_sel].
    split; [exact H1|]. split; [exact H2|]. split; intros k Hk.
    + injection Hk as <-. exact E.
    + destruct export; [discriminate | apply H4, Hk].
  - destruct (i <? length (size_box d)) eqn:E; [|repeat split; assumption].
    apply Nat.ltb_lt in E. unfold valid, select_size.
    cbn [family_box family_sel size_box size_sel].
    split; [exact H1|]. split; [exact H2|]. split; intros k Hk.
    + destruct export; [discriminate | apply H3, Hk].
    + injection Hk as <-. exact E.
Qed.

End Fonts.

(** X16. Confirming the font dialog without touching its selection
    keeps the font: whatever families the system offers, whatever the
    current family and size are -- listed or not -- and whether or not
    the list boxes export their selection, [apply] leaves family and
    size as they were and configures the text font with them. *)
Theorem font_dialog_ok_keeps_font (export : bool) (families : list string)
        (n : FontDialog.Fonts) :
  let n' := FontDialog.apply (FontDialog.create export families n) n in
  FontDialog.current_font_family n' = FontDialog.current_font_family n
  /\ FontDialog.current_font_size n' = FontDialog.current_font_size n
  /\ FontDialog.text_font n'
     = (FontDialog.current_font_family n, FontDialog.current_font_size n).
Proof.
  intros n'. unfold n', FontDialog.apply, FontDialog.create.
  destruct (FontDialog.index_of String.eqb
              (FontDialog.current_font_family n) (FontDialog.sort families))
    as [i|] eqn:Ef;
    destruct (FontDialog.index_of Nat.eqb (FontDialog.current_font_size n)
                FontDialog.sizes) as [j|] eqn:Es;
    try (apply (index_of_nth String.eqb _ ""%string) in Ef as [Ef _];
         [|intros a b; apply String.eqb_eq]);
    try (apply (index_of_nth Nat.eqb _ 0) in Es as [Es Hj];
         [|intros a b; apply Nat.eqb_eq]);
    unfold FontDialog.select_family, FontDialog.select_size;
    destruct export;
    cbn [FontDialog.family_box FontDialog.family_sel FontDialog.size_box
         FontDialog.size_sel];
    try rewrite (get_size j Hj);
    unfold FontDialog.get, FontDialog.config, FontDialog.set_size,
      FontDialog.set_family;
    cbn [FontDialog.current_font_family FontDialog.current_font_size
         FontDialog.text_font];
    try rewrite Ef; try rewrite Es; repeat split.
Qed.

(** X17. The font dialog never leaves the lists: for a dialog made by
    [__init__] and any clicks, [apply] sets the size to a member of the
    twelve fixed sizes or leaves it (nothing selected), sets the family
    to one of the system's families or leaves it, and always configures
    the text font with the resulting pair. *)
Theorem font_dialog_stays_in_lists (families : list string)
        (d : FontDialog.Dialog) (n : FontDialog.Fonts) :
  FontDialog.valid families d ->
  let n' := FontDialog.apply d n in
  (In (FontDialog.current_font_size n') FontDialog.sizes
   \/ FontDialog.size_sel d = None
      /\ FontDialog.current_font_size n' = FontDialog.current_font_size n)
  /\ (In (FontDialog.current_font_family n') families
      \/ FontDialog.family_sel d = None
         /\ FontDialog.current_font_family n'
            = FontDialog.current_font_family n)
  /\ FontDialog.text_font n'
     = (FontDialog.current_font_family n', FontDialog.current_font_size n').
Proof.
  intros (Hfb & Hsb & Hfs & Hss) n'. unfold n', FontDialog.apply.
  set (n1 := match FontDialog.family_sel d with
             | Some i => _
             | None => n
             end).
  assert (H1 : (In (FontDialog.current_font_family n1) families
                \/ FontDialog.family_sel d = None
                   /\ FontDialog.current_font_family n1
                      = FontDialog.current_font_family n)
               /\ FontDialog.current_font_size n1
                  = FontDialog.current_font_size n).
  { unfold n1. destruct (FontDialog.family_sel d) as [i|] eqn:E; [|auto].
    split; [|reflexivity]. left. simpl.
    apply sort_In. rewrite <- Hfb. apply nth_In. apply Hfs. reflexivity. }
  destruct H1 as [Hf Hs].
  destruct (FontDialog.size_sel d) as [i|] eqn:E.
  - specialize (Hss i eq_refl). rewrite Hsb, length_map in Hss.
    rewrite Hsb, (get_size i Hss).
    unfold FontDialog.config, FontDialog.set_size.
    cbn [FontDialog.current_font_size FontDialog.current_font_family
         FontDialog.text_font].
    split; [left; apply nth_In, Hss|]. split; [exact Hf | reflexivity].
  - unfold FontDialog.config.
    cbn [FontDialog.current_font_size FontDialog.current_font_family
         FontDialog.text_font].
    split; [right; auto|]. split; [exact Hf | reflexivity].
Qed.

Lemma font_dialog_stays_in_lists_witness :
  FontDialog.text_font
    (FontDialog.apply
       (FontDialog.click_size true 7
          (FontDialog.create true ["Courier"; "Arial"]%string
             FontDialog.default))
       FontDialog.default)
  = ("Consolas"%string, 18).
Proof.
  refine (proj2 (proj2 (font_dialog_stays_in_lists ["Courier"; "Arial"]%string
            (FontDialog.click_size true 7
               (FontDialog.create true ["Courier"; "Arial"]%string
                  FontDialog.default))
            FontDialog.default _))).
  apply valid_click, valid_create.
Defined.

(** ** The title names the document *)

Section TitleInvariant.

Import Tk Notepad.

Local Abbreviation title_ok st :=
  (filename st <> Some EmptyString
   /\ (title st = String.append (display_name st) " - Notepad"
       \/ title st = String.append (display_name st) "* - Notepad")).

Lemma title_ok_update_title (st : State) :
  filename st <> Some EmptyString -> title_ok (_update_title st).
Proof.
  intros H. split; [exact H|]. rewrite title_update_title.
  change (display_name (_update_title st)) with (display_name st).
  destruct (modified (text st)); [right | left]; reflexivity.
Qed.

Lemma title_ok_frame (st st' : State) :
  title_ok st -> filename st' = filename st -> title st' = title st ->
  title_ok st'.
Proof.
  intros [H1 H2] Hf Ht. unfold display_name, current_path in *.
  rewrite Hf, Ht. auto.
Qed.

Lemma title_ok_save_as (file : string) (st : State) :
  title_ok st -> title_ok (snd (save_as file st)).
Proof.
  intros H. unfold save_as. destruct file as [|a r] eqn:Ef.
  - apply (title_ok_frame st); [exact H | reflexivity..].
  - rewrite <- Ef.
    destruct (TextIO.write_text _ _ _) as [fs' [e|]].
    + apply (title_ok_frame st); [exact H | reflexivity..].
    + apply title_ok_update_title. simpl. rewrite Ef. discriminate.
Qed.

Lemma title_ok_save_file (file : string) (st : State) :
  title_ok st -> title_ok (snd (save_file file st)).
Proof.
  intros H. unfold save_file.
  destruct (current_path st); [|apply title_ok_save_as, H].
  destruct (TextIO.write_text _ _ _) as [fs' [e|]].
  - apply (title_ok_frame st); [exact H | reflexivity..].
  - apply title_ok_update_title. apply H.
Qed.

Lemma title_ok_maybe_save (choice : option bool) (file : string) (st : State) :
  title_ok st -> title_ok (snd (_maybe_save choice file st)).
Proof.
  intros H. unfold _maybe_save.
  destruct (edit_modified (text st)); [|exact H].
  destruct choice as [[|]|].
  - apply title_ok_save_file.
    apply (title_ok_frame st); [exact H | reflexivity..].
  - apply (title_ok_frame st); [exact H | reflexivity..].
  - apply (title_ok_frame st); [exact H | reflexivity..].
Qed.

Lemma update_status_frame (st : State) :
  filename (_update_status st) = filename st
  /\ title (_update_status st) = title st.
Proof. unfold _update_status. destruct (index _ Insert). split; reflexivity. Qed.

Lemma title_ok_handle (fuel : nat) (c : Session.command) (st st' : State) :
  title_ok st -> Session.handle fuel c st = Some st' -> title_ok st'.
Proof.
  intros H Hh. destruct c; cbn [Session.handle] in Hh;
    try (injection Hh as <-).
  - unfold new_file.
    pose proof (title_ok_maybe_save choice file st H) as H1.
    destruct (_maybe_save choice file st) as [[|] st1]; cbn [snd] in H1;
      [|exact H1].
    apply title_ok_update_title. discriminate.
  - unfold open_file.
    pose proof (title_ok_maybe_save choice file st H) as H1.
    destruct (_maybe_save choice file st) as [[|] st1]; cbn [snd] in H1;
      [|exact H1].
    destruct opened as [|a r] eqn:Eo.
    + apply (title_ok_frame st1); [exact H1 | reflexivity..].
    + rewrite <- Eo. destruct (TextIO.read_text _ _) as [data|e].
      * apply (title_ok_frame
                 (_update_title
                    (set_filename (Some opened)
                       (with_text
                          (fun w => insert_text (LineChar 1 0) data
                                      (delete (LineChar 1 0) End w))
                          (show AskOpenFilename st1)))));
          [|reflexivity..].
        apply title_ok_update_title. simpl. rewrite Eo. discriminate.
      * apply (title_ok_frame st1); [exact H1 | reflexivity..].
  - apply title_ok_save_file, H.
  - apply title_ok_save_as, H.
  - unfold exit_app.
    pose proof (title_ok_maybe_save choice file st H) as H1.
    destruct (_maybe_save choice file st) as [[|] st1]; cbn [snd] in H1;
      [|exact H1].
    apply (title_ok_frame st1); [exact H1 | reflexivity..].
  - unfold goto_line. destruct answer as [n|].
    + destruct (update_status_frame
                  (with_text
                     (mark_set_insert
                        (LineChar
                           (let line := if (n <? 1)%Z then 1%Z else n in
                            if (line >? Z.of_nat
                                          (fst (index (text
                                            (show (AskInteger "Go To Line"
                                               "Enter line number:") st))
                                            (Chars End (-1)))))%Z
                            then Z.of_nat
                                   (fst (index (text
                                      (show (AskInteger "Go To Line"
                                         "Enter line number:") st))
                                      (Chars End (-1))))
                            else line) 0))
                     (show (AskInteger "Go To Line" "Enter line number:") st)))
        as [F1 F2].
      apply (title_ok_frame st); [exact H | exact F1 | exact F2].
    + apply (title_ok_frame st); [exact H | reflexivity..].
  - apply (title_ok_frame st); [exact H | reflexivity..].
  - unfold key_press.
    destruct (update_status_frame
                (with_text (insert_text Insert s) st)) as [F1 F2].
    apply (title_ok_frame st); [exact H | exact F1 | exact F2].
  - unfold FindDialog.find_next.
    destruct (FindDialog.find_entry d); [exact H|].
    destruct (search _ _ _ _);
      apply (title_ok_frame st); try exact H; reflexivity.
  - unfold ReplaceDialog.replace_one.
    destruct (ReplaceDialog.find_entry d); [exact H|].
    destruct (search _ _ _ _);
      apply (title_ok_frame st); try exact H; reflexivity.
  - unfold ReplaceDialog.replace_all in Hh.
    destruct (ReplaceDialog.find_entry d); [injection Hh as <-; exact H|].
    destruct (ReplaceDialog.replace_loop _ _ _ _ _ _ _) as [[count w]|];
      [|discriminate].
    injection Hh as <-.
    apply (title_ok_frame st); [exact H | reflexivity..].
Qed.

Lemma put_twice (p : string) (bs : list Utf8.byte) (f : TextIO.filesystem) :
  TextIO.put p bs (TextIO.put p bs f) = TextIO.put p bs f.
Proof. unfold TextIO.put. simpl. rewrite insert_insert_eq. reflexivity. Qed.

End TitleInvariant.

(** X18. In every state a session can reach the title names the
    current document: it is the base name of the document's path, or
    "Untitled" when there is none, followed by " - Notepad", with or
    without the change marker in between; and the path, when there is
    one, is not the empty string. *)
Theorem title_names_document (f : TextIO.filesystem) (st : Notepad.State) :
  Session.reachable f st ->
  Notepad.filename st <> Some EmptyString
  /\ (Notepad.title st = (Notepad.display_name st ++ " - Notepad")%string
      \/ Notepad.title st
         = (Notepad.display_name st ++ "* - Notepad")%string).
Proof.
  induction 1 as [|fuel c st st' _ IH H|st _ IH _].
  - unfold Notepad.init.
    match goal with |- context [Notepad._update_status ?x] =>
      destruct (update_status_frame x) as [F1 F2];
      apply (title_ok_frame x); [|exact F1 | exact F2]
    end.
    apply title_ok_update_title. discriminate.
  - exact (title_ok_handle fuel c st st' IH H).
  - destruct (on_modified_frame (Notepad.with_text Notepad.take_event st))
      as (F1 & _ & _ & F4 & _).
    apply (title_ok_frame st); [exact IH | exact F1 | exact F4].
Qed.

Lemma title_names_document_witness :
  Notepad.title (Notepad.new_file None "" (Notepad.init Sample.posix))
  = "Untitled - Notepad"%string
  \/ Notepad.title (Notepad.new_file None "" (Notepad.init Sample.posix))
     = "Untitled* - Notepad"%string.
Proof.
  refine (proj2 (title_names_document Sample.posix
                   (Notepad.new_file None "" (Notepad.init Sample.posix)) _)).
  apply (Session.reach_handle _ 0 (Session.New None "")
           (Notepad.init Sample.posix)); [|reflexivity].
  apply Session.reach_init.
Defined.

(** X19. Saving twice is saving once: right after a successful save
    (or save as), a further save succeeds without a dialog and leaves
    the whole state, the files included, exactly as the first save left
    it. *)
Theorem save_again_changes_nothing (file file' : string)
        (st st1 : Notepad.State) :
  Notepad.save_file file st = (true, st1)
  \/ Notepad.save_as file st = (true, st1) ->
  Notepad.save_file file' st1 = (true, st1).
Proof.
  intros Hsave.
  set (outcome := exists path bs st0,
            Notepad.current_path st0 = Some path
            /\ (path ∉ TextIO.unwritable (Notepad.fs st))
            /\ Utf8.encode
                 (TextIO.translate_out (TextIO.crlf (Notepad.fs st))
                    (rstrip_lf (Tk.chars (Notepad.text st)))) = Some bs
            /\ Notepad.text st0 = Notepad.text st
            /\ st1 = Notepad._update_title
                       (Notepad.with_text (Tk.edit_modified_set false)
                          (Notepad.set_fs (TextIO.put path bs (Notepad.fs st))
                             st0))).
  assert (H : outcome).
  { assert (Has : Notepad.save_as file st = (true, st1) -> outcome).
    { intros H. pose proof H as H'.
      apply save_as_true in H as (bs & Hne & Henc & ->).
      exists file, bs,
        (Notepad.set_filename (Some file) (Notepad.show AskSaveAsFilename st)).
      split; [apply current_path_some; [reflexivity | exact Hne]|].
      split.
      { rewrite (save_as_write file st Hne) in H'.
        unfold TextIO.write_text in H'.
        destruct (decide (file ∈ TextIO.unwritable (Notepad.fs st)));
          [discriminate | assumption]. }
      split; [exact Henc|]. split; reflexivity. }
    destruct (Notepad.current_path st) as [p|] eqn:Ep.
    - destruct Hsave as [H | H]; [|exact (Has H)].
      pose proof H as H'.
      destruct (save_file_true file p st st1 Ep H) as (bs & Henc & Hst).
      exists p, bs, st. split; [exact Ep|]. split.
      { rewrite (save_file_write file p st Ep) in H'.
        unfold TextIO.write_text in H'.
        destruct (decide (p ∈ TextIO.unwritable (Notepad.fs st)));
          [discriminate | assumption]. }
      split; [exact Henc|]. split; [reflexivity | exact Hst].
    - apply Has. destruct Hsave as [H | H]; [|exact H].
      unfold Notepad.save_file in H. rewrite Ep in H. exact H. }
  destruct H as (path & bs & st0 & Hp & Hw & Henc & Ht & ->).
  rewrite (save_file_write file' path); [|exact Hp].
  unfold TextIO.write_text. simpl Notepad.fs. simpl TextIO.unwritable.
  destruct (decide (path ∈ TextIO.unwritable (Notepad.fs st)));
    [contradiction|].
  simpl Notepad.text. simpl Tk.chars. simpl TextIO.crlf.
  rewrite Ht, Henc, put_twice.
  unfold Notepad._update_title, Notepad.display_name, Notepad.current_path.
  simpl. reflexivity.
Qed.

Lemma save_again_changes_nothing_witness :
  Notepad.save_file ""
    (snd (Notepad.save_as "out.txt" (Sample.typed Sample.posix "draft")))
  = (true,
     snd (Notepad.save_as "out.txt" (Sample.typed Sample.posix "draft"))).
Proof.
  apply (save_again_changes_nothing "out.txt" ""
           (Sample.typed Sample.posix "draft")).
  right. reflexivity.
Defined.

(** ** Opening and saving without an edit *)

Section ByteRoundTrip.

Import Utf8.
Local Open Scope Z_scope.

Local Ltac settle_tests :=
  repeat match goal with
         | |- context [?a <=? ?b] => destruct (Z.leb_spec a b); try lia
         | |- context [?a <? ?b] => destruct (Z.ltb_spec a b); try lia
         end.

Lemma option_map_cons (c : char) (o : option str) (s : str) :
  option_map (cons c) o = Some s ->
  exists s', o = Some s' /\ s = c :: s'.
Proof.
  destruct o as [s'|]; [|discriminate]. intros H. injection H as <-. eauto.
Qed.

Lemma encode_cons (c : char) (b bs : list byte) (s : str) :
  encode_char c = Some b -> encode s = Some bs ->
  encode (c :: s) = Some (b ++ bs).
Proof. intros H1 H2. cbn [encode]. rewrite H1, H2. reflexivity. Qed.

Lemma encode_char_1 (b0 : byte) :
  0 <= b0 < 0x80 -> encode_char b0 = Some [b0].
Proof. intros H. unfold encode_char, is_scalar. settle_tests. reflexivity. Qed.

Lemma encode_char_2 (b0 b1 : byte) :
  0xC2 <= b0 <= 0xDF -> 0x80 <= b1 <= 0xBF ->
  encode_char ((b0 - 0xC0) * 64 + cont b1) = Some [b0; b1].
Proof.
  intros H0 H1. unfold encode_char, is_scalar, cont. settle_tests.
  cbn [andb orb negb]. f_equal.
  f_equal; [|f_equal]; Z.to_euclidean_division_equations; lia.
Qed.

Lemma encode_char_3 (b0 b1 b2 : byte) :
  0xE0 <= b0 <= 0xEF -> 0x80 <= b1 <= 0xBF -> 0x80 <= b2 <= 0xBF ->
  0x800 <= (b0 - 0xE0) * 4096 + cont b1 * 64 + cont b2 ->
  is_scalar ((b0 - 0xE0) * 4096 + cont b1 * 64 + cont b2) = true ->
  encode_char ((b0 - 0xE0) * 4096 + cont b1 * 64 + cont b2)
  = Some [b0; b1; b2].
Proof.
  intros H0 H1 H2 H3 H4. unfold encode_char. rewrite H4. unfold cont in *.
  cbn [negb]. settle_tests. f_equal.
  f_equal; [|f_equal; [|f_equal]]; Z.to_euclidean_division_equations; lia.
Qed.

Lemma encode_char_4 (b0 b1 b2 b3 : byte) :
  0xF0 <= b0 <= 0xF4 -> 0x80 <= b1 <= 0xBF -> 0x80 <= b2 <= 0xBF ->
  0x80 <= b3 <= 0xBF ->
  0x10000 <= (b0 - 0xF0) * 262144 + cont b1 * 4096 + cont b2 * 64 + cont b3
  <= 0x10FFFF ->
  encode_char ((b0 - 0xF0) * 262144 + cont b1 * 4096 + cont b2 * 64 + cont b3)
  = Some [b0; b1; b2; b3].
Proof.
  intros H0 H1 H2 H3 H4. unfold encode_char, is_scalar, cont in *.
  settle_tests. cbn [andb orb negb]. f_equal.
  f_equal; [|f_equal; [|f_equal; [|f_equal]]];
    Z.to_euclidean_division_equations; lia.
Qed.

Lemma is_cont_range (b : byte) : is_cont b = true -> 0x80 <= b <= 0xBF.
Proof. unfold is_cont. intros H. apply andb_true_iff in H as [H1 H2]. lia. Qed.

(** Encoding undoes the strict decoding: what decodes is in shortest
    form. *)
Lemma encode_decode_bounded (n : nat) : forall (bs : list byte) (s : str),
  (length bs <= n)%nat -> decode bs = Some s -> encode s = Some bs.
Proof.
  induction n as [|n IH]; intros bs s Hn H.
  - destruct bs; [|simpl in Hn; lia]. injection H as <-. reflexivity.
  - destruct bs as [|b0 r0]; [injection H as <-; reflexivity|].
    cbn [length] in Hn. cbn [decode] in H.
    destruct ((0 <=? b0) && (b0 <? 0x80)) eqn:T1.
    { apply andb_true_iff in T1 as [A B].
      apply option_map_cons in H as (s' & Hd & ->).
      apply (encode_cons b0 [b0] r0).
      - apply encode_char_1. lia.
      - apply IH; [lia | exact Hd]. }
    destruct ((0xC2 <=? b0) && (b0 <=? 0xDF)) eqn:T2.
    { apply andb_true_iff in T2 as [A B].
      destruct r0 as [|b1 r1]; [discriminate|]. cbn [length] in Hn.
      destruct (is_cont b1) eqn:C1; [|discriminate].
      apply is_cont_range in C1.
      apply option_map_cons in H as (s' & Hd & ->).
      apply (encode_cons _ [b0; b1] r1).
      - apply encode_char_2; lia.
      - apply IH; [lia | exact Hd]. }
    destruct ((0xE0 <=? b0) && (b0 <=? 0xEF)) eqn:T3.
    { apply andb_true_iff in T3 as [A B].
      destruct r0 as [|b1 [|b2 r2]]; try discriminate. cbn [length] in Hn.
      cbv zeta in H.
      destruct (is_cont b1 && is_cont b2
                && (0x800 <=? (b0 - 0xE0) * 4096 + cont b1 * 64 + cont b2)
                && is_scalar ((b0 - 0xE0) * 4096 + cont b1 * 64 + cont b2))
        eqn:T; [|discriminate].
      apply andb_true_iff in T as [T S4].
      apply andb_true_iff in T as [T S3].
      apply andb_true_iff in T as [C1 C2].
      apply is_cont_range in C1. apply is_cont_range in C2.
      apply option_map_cons in H as (s' & Hd & ->).
      apply (encode_cons _ [b0; b1; b2] r2).
      - apply encode_char_3; try lia. exact S4.
      - apply IH; [lia | exact Hd]. }
    destruct ((0xF0 <=? b0) && (b0 <=? 0xF4)) eqn:T4; [|discriminate].
    apply andb_true_iff in T4 as [A B].
    destruct r0 as [|b1 [|b2 [|b3 r3]]]; try discriminate. cbn [length] in Hn.
    cbv zeta in H.
    destruct (is_cont b1 && is_cont b2 && is_cont b3
              && (0x10000 <=? (b0 - 0xF0) * 262144 + cont b1 * 4096
                              + cont b2 * 64 + cont b3)
              && ((b0 - 0xF0) * 262144 + cont b1 * 4096
                  + cont b2 * 64 + cont b3 <=? 0x10FFFF))
      eqn:T; [|discriminate].
    apply andb_true_iff in T as [T S5].
    apply andb_true_iff in T as [T S4].
    apply andb_true_iff in T as [T C3].
    apply andb_true_iff in T as [C1 C2].
    apply is_cont_range in C1. apply is_cont_range in C2.
    apply is_cont_range in C3.
    apply option_map_cons in H as (s' & Hd & ->).
    apply (encode_cons _ [b0; b1; b2; b3] r3).
    + apply encode_char_4; lia.
    + apply IH; [lia | exact Hd].
Qed.

End ByteRoundTrip.

Section OpenThenSave.

Import TextIO.

Lemma translate_in_same (s : str) : ~ In CR s -> translate_in s = s.
Proof.
  induction s as [|c r IH]; intros H; [reflexivity|].
  cbn [translate_in]. rewrite is_cr_false.
  - rewrite IH; [reflexivity|]. intros Hin. apply H. right. exact Hin.
  - intros ->. apply H. left. reflexivity.
Qed.

Lemma translate_out_same (s : str) : translate_out false s = s.
Proof.
  induction s as [|c r IH]; [reflexivity|].
  cbn [translate_out]. rewrite andb_false_r, IH. reflexivity.
Qed.

End OpenThenSave.

(** X20. Opening a file and saving it without an edit leaves the file
    as it was, byte for byte, when its text holds no carriage return
    and does not end in a line feed and the platform's line separator
    is the line feed: the strict decoder accepts only what the encoder
    writes. *)
Theorem open_then_save_keeps_file (choice : option bool)
        (file file' opened : string) (bs : list Utf8.byte) (s : str)
        (st st1 : Notepad.State) :
  Tk.wf (Notepad.text st) ->
  Notepad._maybe_save choice file st = (true, st1) ->
  opened <> EmptyString ->
  TextIO.files (Notepad.fs st1) !! opened = Some bs ->
  opened ∉ TextIO.unreadable (Notepad.fs st1) ->
  opened ∉ TextIO.unwritable (Notepad.fs st1) ->
  TextIO.crlf (Notepad.fs st1) = false ->
  Utf8.decode bs = Some s ->
  ~ In CR s ->
  ends_with_lf s = false ->
  let st' := Notepad.open_file choice file opened st in
  exists st'',
    Notepad.save_file file' st' = (true, st'')
    /\ TextIO.files (Notepad.fs st'') = TextIO.files (Notepad.fs st1)
    /\ Tk.chars (Notepad.text st'') = s.
Proof.
  intros Hw Hm Hne Hf Hr Hnw Hlf Hd Hcr Hend st'.
  pose proof (wf_maybe_save choice file st Hw) as Hw1.
  rewrite Hm in Hw1. simpl in Hw1.
  pose proof (open_file_read choice file opened _ st st1 Hne Hm
                (read_text_ok _ _ _ _ Hf Hr Hd)) as E.
  fold st' in E. rewrite (translate_in_same s Hcr) in E.
  assert (Hc : Tk.chars (Notepad.text st') = s).
  { rewrite E. simpl. apply chars_replace_all_text. }
  assert (Hp : Notepad.current_path st' = Some opened).
  { rewrite E. apply current_path_some; [reflexivity | exact Hne]. }
  assert (Hfs : Notepad.fs st' = Notepad.fs st1) by (rewrite E; reflexivity).
  rewrite (save_file_write file' opened st' Hp).
  unfold TextIO.write_text. rewrite Hfs.
  destruct (decide (opened ∈ TextIO.unwritable (Notepad.fs st1)));
    [contradiction|].
  rewrite Hc, (rstrip_lf_keeps s Hend), Hlf, translate_out_same.
  rewrite (encode_decode_bounded (length bs) bs s (Nat.le_refl _) Hd).
  eexists. split; [reflexivity|]. split.
  - simpl. apply insert_id. exact Hf.
  - exact Hc.
Qed.

Lemma open_then_save_keeps_file_witness :
  exists st'',
    Notepad.save_file ""
      (Notepad.open_file None "" "notes.txt" (Notepad.init Sample.disk))
    = (true, st'')
    /\ TextIO.files (Notepad.fs st'')
       = TextIO.files (Notepad.fs (Notepad.init Sample.disk))
    /\ Tk.chars (Notepad.text st'') = [104; 105]%Z.
Proof.
  apply (open_then_save_keeps_file None "" "" "notes.txt" [104; 105]%Z
           [104; 105]%Z (Notepad.init Sample.disk) (Notepad.init Sample.disk)).
  - unfold Tk.wf. vm_compute. lia.
  - reflexivity.
  - discriminate.
  - reflexivity.
  - vm_compute. set_solver.
  - vm_compute. set_solver.
  - reflexivity.
  - reflexivity.
  - vm_compute. intuition discriminate.
  - reflexivity.
Defined.
